(** * zotero-mcp: the Zotero MCP Bridge plugin and the relevance-ranking core

    Part I embeds [zotero-plugin/addon/content/zotero-mcp.js], the class
    [ZoteroMcpPlugin]: JSON values as the JavaScript engine sees them, the
    Zotero object model as an interface ([Host]), the seven RPC commands and
    the dispatcher [handleRpcRequest], all in a state-and-exception monad
    over the host's world.

    Part II models the relevance-ranking search engine and the citation-key
    resolver of [zotero_mcp.py].  That file is not among the sources at
    hand, so every definition of Part II is written from the specification
    and says so. *)

From Stdlib Require Import ZArith QArith Lqa String Ascii List Lia Permutation.
From Stdlib Require OrderedTypeEx.
From stdpp Require Import base option list gmap strings sorting pretty.

Set Warnings "-register-all".
Close Scope Q_scope.
Open Scope Z_scope.

(* ===================================================================== *)
(** * Part I.  JavaScript values                                          *)
(* ===================================================================== *)

(** A value of the engine, as [JSON.parse] produces it, plus [undefined]
    for a property that is not there.  Numbers are the integral ones; a
    fractional or infinite number has no representative here.  An object is
    its list of own properties, each key once. *)
Inductive value : Type :=
  | VUndef
  | VNull
  | VBool (b : bool)
  | VNum (n : Z)
  | VStr (s : string)
  | VArr (xs : list value)
  | VObj (fields : list (string * value)).

(** [!v] is [negb (truthy v)]. *)
Definition truthy (v : value) : bool :=
  match v with
  | VUndef | VNull => false
  | VBool b => b
  | VNum n => negb (n =? 0)
  | VStr s => negb (String.eqb s "")
  | VArr _ | VObj _ => true
  end.

Fixpoint assoc (k : string) (fs : list (string * value)) : value :=
  match fs with
  | [] => VUndef
  | (k', v) :: fs' => if String.eqb k k' then v else assoc k fs'
  end.

(** [v.k] for a property name [k] that no prototype defines (all the names
    the plugin reads: method, params, query, limit, ...). *)
Definition get (v : value) (k : string) : value :=
  match v with
  | VObj fs => assoc k fs
  | _ => VUndef
  end.

(** [typeof v === "string"] *)
Definition is_string (v : value) : bool :=
  match v with VStr _ => true | _ => false end.

(** [a || b] *)
Definition or_else (a b : value) : value := if truthy a then a else b.

(** [v === "lit"]: strict equality with a string literal. *)
Definition is_lit (v : value) (lit : string) : bool :=
  match v with VStr s => String.eqb s lit | _ => false end.

(** An integer or an infinity, the result of [ToIntegerOrInfinity]. *)
Inductive extint : Type := NegInf | Fin (z : Z) | PosInf.

(** The final index of [Array.prototype.slice(0, end)] on [len] elements:
    a negative [end] counts from the back, and both ends are clamped. *)
Definition slice_final (len : nat) (relEnd : extint) : nat :=
  match relEnd with
  | NegInf => 0%nat
  | PosInf => len
  | Fin k => if k <? 0 then Z.to_nat (Z.max (Z.of_nat len + k) 0)
             else Z.to_nat (Z.min k (Z.of_nat len))
  end.

(** [l.slice(0, end)] *)
Definition slice0 {A : Type} (l : list A) (relEnd : extint) : list A :=
  take (slice_final (length l) relEnd) l.

(* ===================================================================== *)
(** * Exceptions and the monad of host computations                       *)
(* ===================================================================== *)

(** What can be thrown: the plugin's own [rpcError(code, message, status)],
    a [TypeError] of the engine (destructuring [null]), or an [Error] of a
    Zotero call, which carries a message and neither [code] nor [status]. *)
Inductive exn : Type :=
  | RpcError (code message : string) (status : Z)
  | TypeError (message : string)
  | HostError (message : string).

(** [rpcError(code, message, status = 500)] *)
Definition rpcError (code message : string) (status : option Z) : exn :=
  RpcError code message (default 500 status).

(** [e.message] *)
Definition exn_message (e : exn) : string :=
  match e with
  | RpcError _ m _ => m
  | TypeError m => m
  | HostError m => m
  end.

(** [e.code] and [e.status], [undefined] where the error has none. *)
Definition exn_code (e : exn) : value :=
  match e with RpcError c _ _ => VStr c | _ => VUndef end.

Definition exn_status (e : exn) : value :=
  match e with RpcError _ _ s => VNum s | _ => VUndef end.

Inductive outcome (A : Type) : Type :=
  | Return (a : A)
  | Throw (e : exn).
Arguments Return {A} a.
Arguments Throw {A} e.

(** A computation reads and changes the host's world [W] and either
    returns or throws. *)
Definition M (W A : Type) : Type := W → outcome A * W.

Global Instance M_ret {W} : MRet (M W) := λ A a w, (Return a, w).

Global Instance M_bind {W} : MBind (M W) := λ A B f c w,
  match c w with
  | (Return a, w') => f a w'
  | (Throw e, w') => (Throw e, w')
  end.

Definition throw {W A} (e : exn) : M W A := λ w, (Throw e, w).

(** [try { c } catch (e) { h e }] *)
Definition try_catch {W A} (c : M W A) (h : exn → M W A) : M W A := λ w,
  match c w with
  | (Return a, w') => (Return a, w')
  | (Throw e, w') => h e w'
  end.

Definition get_world {W} : M W W := λ w, (Return w, w).

(** What a call into Zotero answers: its result, or an [Error] thrown with
    a message. *)
Inductive answer (A : Type) : Type :=
  | Done (a : A)
  | Failed (message : string).
Arguments Done {A} a.
Arguments Failed {A} message.

(** A call into Zotero, awaited or not, inside the plugin's code. *)
Definition call {W A} (op : W → answer A * W) : M W A := λ w,
  match op w with
  | (Done a, w') => (Return a, w')
  | (Failed m, w') => (Throw (HostError m), w')
  end.

(** [const { ... } = v]: destructuring [null] or [undefined] throws. *)
Definition destructure {W} (v : value) : M W value :=
  match v with
  | VUndef | VNull => throw (TypeError "cannot destructure null or undefined")
  | _ => mret v
  end.

(** A destructuring default, [{ k = d }]: it applies to [undefined] only. *)
Definition with_default (v d : value) : value :=
  match v with VUndef => d | _ => v end.

(* ===================================================================== *)
(** * The Zotero object model                                             *)
(* ===================================================================== *)

(** A creator and a tag as [item.getCreators()] and [item.getTags()]
    return them. *)
Record Creator : Type := {
  firstName : value;
  lastName : value;
  creatorTypeID : Z }.

Record Tag : Type := { tag : value }.

(** A [Zotero.Item] at the moment the plugin holds it: its properties and
    what its getters answer. *)
Record Item : Type := {
  item_id : Z;
  item_key : value;
  item_libraryID : value;
  itemTypeID : Z;
  getField : string → value;
  getCreators : list Creator;
  getCollections : list Z;
  getTags : list Tag;
  dateAdded : value;
  dateModified : value;
  isRegularItem : bool;
  isNote : bool;
  isAttachment : bool }.

(** A [Zotero.Collection] likewise; [parentID] is [false] (here [None])
    for a top-level collection. *)
Record Collection : Type := {
  col_id : Z;
  col_key : value;
  col_name : value;
  col_libraryID : value;
  col_parentKey : value;
  col_parentID : option Z;
  col_version : value;
  getChildItems : list Z }.

(** What the plugin calls on Zotero and on the engine.  Every call that is
    awaited, or that writes, may throw and may change the world. *)
Class Host : Type := {
  World : Type;
  (** [Number.prototype.toString] on an integral number *)
  Number_toString : Z → string;
  (** [ToIntegerOrInfinity] of the number a string converts to (0 for a
      string that is no number) *)
  StringToIntegerOrInfinity : string → extint;
  (** [Zotero.Libraries.userLibraryID] *)
  userLibraryID : value;
  CreatorTypes_getName : Z → value;
  ItemTypes_getName : Z → value;
  (** [Zotero.Collections.get(id)], [false] when there is none *)
  Collections_get : World → Z → option Collection;
  (** [new Zotero.Search()], [libraryID = libID],
      [addCondition("quicksearch-titleCreatorYear", "contains", query)],
      [search()] *)
  Search_search : value → value → World → answer (list Z) * World;
  Items_getAsync : list Z → World → answer (list Item) * World;
  Items_getByLibraryAndKeyAsync :
    value → value → World → answer (option Item) * World;
  Collections_getByLibraryAndKeyAsync :
    value → value → World → answer (option Collection) * World;
  (** [Zotero.Collections.getByLibrary(libID, true)] *)
  Collections_getByLibrary : value → World → answer (list Collection) * World;
  (** [new Zotero.Collection()] with [libraryID], [name] and, when given,
      [parentID] set, then [saveTx()]; the saved collection *)
  Collection_saveTx :
    value → value → option Z → World → answer Collection * World;
  Collection_addItem : Collection → Z → World → answer unit * World;
  Collection_removeItem : Collection → Z → World → answer unit * World }.

(** The object has an own property of this name. *)
Definition has_own (fs : list (string * value)) (k : string) : bool :=
  existsb (λ kv, String.eqb k kv.1) fs.

(** [ToString(v)], as a template literal applies it; [None] is the
    [TypeError] of a conversion to a primitive that fails.  A value that came
    from JSON holds no function, so an object converts through
    [Object.prototype.toString] unless an own property [toString] (which
    cannot be called) is in the way, and an array through [join], which reads
    [null] and [undefined] as the empty string. *)
Fixpoint ToString `{Host} (v : value) : option string :=
  match v with
  | VUndef => Some "undefined"
  | VNull => Some "null"
  | VBool b => Some (if b then "true" else "false")
  | VNum n => Some (Number_toString n)
  | VStr s => Some s
  | VArr xs =>
      (fix join (first : bool) (ys : list value) : option string :=
         match ys with
         | [] => Some ""
         | y :: ys' =>
             match (match y with
                    | VUndef | VNull => Some ""
                    | _ => ToString y
                    end), join false ys' with
             | Some s, Some rest =>
                 Some ((if first then "" else ",") +:+ s +:+ rest)
             | _, _ => None
             end
         end) true xs
  | VObj fs => if has_own fs "toString" then None else Some "[object Object]"
  end.

(** [ToIntegerOrInfinity(v)], as [slice] applies it to its arguments: an
    object or an array is first converted to a primitive, which for a value
    from JSON is its string, or fails. *)
Definition ToIntegerOrInfinity `{Host} (v : value) : option extint :=
  match v with
  | VNum n => Some (Fin n)
  | VUndef | VNull => Some (Fin 0)
  | VBool b => Some (Fin (if b then 1 else 0))
  | VStr s => Some (StringToIntegerOrInfinity s)
  | VArr _ | VObj _ => StringToIntegerOrInfinity <$> ToString v
  end.

(** The [TypeError] of a value that has no primitive value. *)
Definition conversion_error : exn :=
  TypeError "cannot convert object to primitive value".

(** [${v}]: a value inside a template literal. *)
Definition template `{Host} (v : value) : M World string :=
  match ToString v with
  | Some s => mret s
  | None => throw conversion_error
  end.

(** The end index that [slice(0, v)] computes from [v]. *)
Definition slice_index `{Host} (v : value) : M World extint :=
  match ToIntegerOrInfinity v with
  | Some k => mret k
  | None => throw conversion_error
  end.

(** [Zotero.debug(message)]: a line in Zotero's log, and nothing that the
    plugin's answers depend on. *)
Definition Zotero_debug `{Host} (message : string) : M World unit := mret tt.

(** The double quote. *)
Definition dquote : string := String (ascii_of_nat 34) "".

Definition VLen {A : Type} (l : list A) : value := VNum (Z.of_nat (length l)).

(* ===================================================================== *)
(** * The plugin: [class ZoteroMcpPlugin]                                 *)
(* ===================================================================== *)

Section Plugin.
Context `{Host}.

Local Abbreviation M := (M World).

(** ** Serialization helpers *)

Definition serializeItem (w : World) (item : Item) : value :=
  let creators :=
    map (λ c, VObj [("firstName", firstName c);
                    ("lastName", lastName c);
                    ("creatorType", CreatorTypes_getName (creatorTypeID c))])
        (getCreators item) in
  let collections :=
    filter (λ v, truthy v = true)
      (map (λ colID, match Collections_get w colID with
                     | Some col => col_key col
                     | None => VNull
                     end)
           (getCollections item)) in
  VObj [("key", item_key item);
        ("libraryID", item_libraryID item);
        ("itemType", ItemTypes_getName (itemTypeID item));
        ("title", getField item "title");
        ("creators", VArr creators);
        ("date", getField item "date");
        ("year", getField item "year");
        ("abstractNote", getField item "abstractNote");
        ("publicationTitle", getField item "publicationTitle");
        ("publisher", getField item "publisher");
        ("DOI", getField item "DOI");
        ("URL", getField item "url");
        ("collections", VArr collections);
        ("tags", VArr (map tag (getTags item)));
        ("dateAdded", dateAdded item);
        ("dateModified", dateModified item)].

Definition serializeItemBrief (item : Item) : value :=
  let firstAuthor :=
    match getCreators item with
    | c :: _ => lastName c
    | [] => VStr ""
    end in
  VObj [("key", item_key item);
        ("title", getField item "title");
        ("firstAuthor", firstAuthor);
        ("year", getField item "year");
        ("itemType", ItemTypes_getName (itemTypeID item))].

(** ** Collection management commands *)

Definition createCollection (params : value) : M value :=
  p ← destructure params;
  let name := get p "name" in
  let parentKey := get p "parentKey" in
  let libraryID := get p "libraryID" in
  if negb (truthy name) || negb (is_string name) then
    throw (rpcError "INVALID_PARAMS" "Collection name is required" (Some 400))
  else
    let libID := or_else libraryID userLibraryID in
    parentID ←
      (if truthy parentKey then
         parent ← call (Collections_getByLibraryAndKeyAsync libID parentKey);
         match parent with
         | None =>
             s ← template parentKey;
             throw (rpcError "NOT_FOUND"
                      ("Parent collection not found: " +:+ s) (Some 404))
         | Some parent => mret (Some (col_id parent))
         end
       else mret None);
    collection ← call (Collection_saveTx libID name parentID);
    n ← template name;
    k ← template (col_key collection);
    _ ← Zotero_debug ("Zotero MCP: Created collection " +:+ dquote +:+ n +:+
                      dquote +:+ " with key " +:+ k);
    mret (VObj [("key", col_key collection);
                ("name", col_name collection);
                ("libraryID", col_libraryID collection);
                ("parentKey", or_else parentKey VNull);
                ("version", col_version collection)]).

Definition getCollection (params : value) : M value :=
  p ← destructure params;
  let key := get p "key" in
  let libraryID := get p "libraryID" in
  if negb (truthy key) then
    throw (rpcError "INVALID_PARAMS" "Collection key is required" (Some 400))
  else
    let libID := or_else libraryID userLibraryID in
    collection ← call (Collections_getByLibraryAndKeyAsync libID key);
    match collection with
    | None =>
        s ← template key;
        throw (rpcError "NOT_FOUND" ("Collection not found: " +:+ s) (Some 404))
    | Some collection =>
        let itemIDs := getChildItems collection in
        items ← call (Items_getAsync itemIDs);
        mret (VObj [("key", col_key collection);
                    ("name", col_name collection);
                    ("libraryID", col_libraryID collection);
                    ("parentKey", or_else (col_parentKey collection) VNull);
                    ("version", col_version collection);
                    ("itemCount", VLen itemIDs);
                    ("items", VArr (map serializeItemBrief items))])
    end.

(** An entry of [errors]: [{ key: itemKey, error: message }]. *)
Definition error_entry (itemKey : value) (message : string) : value :=
  VObj [("key", itemKey); ("error", VStr message)].

(** The body of [for (const itemKey of itemKeys)] in [addToCollection],
    with the two arrays it pushes to. *)
Fixpoint addToCollection_loop (libID : value) (collection : Collection)
    (itemKeys : list value) (added errors : list value)
    : M (list value * list value) :=
  match itemKeys with
  | [] => mret (added, errors)
  | itemKey :: rest =>
      acc ← try_catch
        (item ← call (Items_getByLibraryAndKeyAsync libID itemKey);
         match item with
         | None =>
             mret (added, errors ++ [error_entry itemKey "Item not found"])
         | Some item =>
             if isNote item || isAttachment item then
               mret (added,
                     errors ++ [error_entry itemKey
                                  "Cannot add notes or attachments directly"])
             else
               _ ← call (Collection_addItem collection (item_id item));
               mret (added ++ [itemKey], errors)
         end)
        (λ e, mret (added, errors ++ [error_entry itemKey (exn_message e)]));
      addToCollection_loop libID collection rest acc.1 acc.2
  end.

(** [errors.length > 0 ? errors : undefined] *)
Definition errors_or_undefined (errors : list value) : value :=
  match errors with [] => VUndef | _ => VArr errors end.

Definition addToCollection (params : value) : M value :=
  p ← destructure params;
  let collectionKey := get p "collectionKey" in
  let itemKeys := get p "itemKeys" in
  let libraryID := get p "libraryID" in
  if negb (truthy collectionKey) then
    throw (rpcError "INVALID_PARAMS" "Collection key is required" (Some 400))
  else
    match itemKeys with
    | VArr (k :: ks) =>
        let libID := or_else libraryID userLibraryID in
        collection ← call (Collections_getByLibraryAndKeyAsync libID collectionKey);
        match collection with
        | None =>
            s ← template collectionKey;
            throw (rpcError "NOT_FOUND" ("Collection not found: " +:+ s)
                     (Some 404))
        | Some collection =>
            r ← addToCollection_loop libID collection (k :: ks) [] [];
            n ← template (VLen r.1);
            s ← template collectionKey;
            _ ← Zotero_debug ("Zotero MCP: Added " +:+ n +:+
                              " items to collection " +:+ s);
            mret (VObj [("collectionKey", collectionKey);
                        ("added", VArr r.1);
                        ("errors", errors_or_undefined r.2)])
        end
    | _ =>
        throw (rpcError "INVALID_PARAMS" "Item keys array is required"
                 (Some 400))
    end.

Fixpoint removeFromCollection_loop (libID : value) (collection : Collection)
    (itemKeys : list value) (removed errors : list value)
    : M (list value * list value) :=
  match itemKeys with
  | [] => mret (removed, errors)
  | itemKey :: rest =>
      acc ← try_catch
        (item ← call (Items_getByLibraryAndKeyAsync libID itemKey);
         match item with
         | None =>
             mret (removed, errors ++ [error_entry itemKey "Item not found"])
         | Some item =>
             _ ← call (Collection_removeItem collection (item_id item));
             mret (removed ++ [itemKey], errors)
         end)
        (λ e, mret (removed, errors ++ [error_entry itemKey (exn_message e)]));
      removeFromCollection_loop libID collection rest acc.1 acc.2
  end.

Definition removeFromCollection (params : value) : M value :=
  p ← destructure params;
  let collectionKey := get p "collectionKey" in
  let itemKeys := get p "itemKeys" in
  let libraryID := get p "libraryID" in
  if negb (truthy collectionKey) then
    throw (rpcError "INVALID_PARAMS" "Collection key is required" (Some 400))
  else
    match itemKeys with
    | VArr (k :: ks) =>
        let libID := or_else libraryID userLibraryID in
        collection ← call (Collections_getByLibraryAndKeyAsync libID collectionKey);
        match collection with
        | None =>
            s ← template collectionKey;
            throw (rpcError "NOT_FOUND" ("Collection not found: " +:+ s)
                     (Some 404))
        | Some collection =>
            r ← removeFromCollection_loop libID collection (k :: ks) [] [];
            n ← template (VLen r.1);
            s ← template collectionKey;
            _ ← Zotero_debug ("Zotero MCP: Removed " +:+ n +:+
                              " items from collection " +:+ s);
            mret (VObj [("collectionKey", collectionKey);
                        ("removed", VArr r.1);
                        ("errors", errors_or_undefined r.2)])
        end
    | _ =>
        throw (rpcError "INVALID_PARAMS" "Item keys array is required"
                 (Some 400))
    end.

Definition listCollections (params : value) : M value :=
  p ← destructure params;
  let libraryID := get p "libraryID" in
  let parentKey := get p "parentKey" in
  let libID := or_else libraryID userLibraryID in
  all ← call (Collections_getByLibrary libID);
  collections ←
    (if truthy parentKey then
       parent ← call (Collections_getByLibraryAndKeyAsync libID parentKey);
       match parent with
       | None =>
           s ← template parentKey;
           throw (rpcError "NOT_FOUND"
                    ("Parent collection not found: " +:+ s) (Some 404))
       | Some parent =>
           mret (filter (λ c, col_parentID c = Some (col_id parent)) all)
       end
     else mret all);
  mret (VObj [("collections",
               VArr (map (λ c, VObj [("key", col_key c);
                                     ("name", col_name c);
                                     ("libraryID", col_libraryID c);
                                     ("parentKey", or_else (col_parentKey c) VNull);
                                     ("itemCount", VLen (getChildItems c))])
                         collections))]).

(** ** Item commands *)

Definition searchItems (params : value) : M value :=
  p ← destructure params;
  let query := get p "query" in
  let limit := with_default (get p "limit") (VNum 50) in
  let libraryID := get p "libraryID" in
  if negb (truthy query) || negb (is_string query) then
    throw (rpcError "INVALID_PARAMS" "Search query is required" (Some 400))
  else
    let libID := or_else libraryID userLibraryID in
    itemIDs ← call (Search_search libID query);
    relEnd ← slice_index limit;
    let limitedIDs := slice0 itemIDs relEnd in
    items ← call (Items_getAsync limitedIDs);
    let regularItems := filter (λ item, isRegularItem item = true) items in
    w ← get_world;
    mret (VObj [("query", query);
                ("total", VLen regularItems);
                ("items", VArr (map (serializeItem w) regularItems))]).

Definition getItem (params : value) : M value :=
  p ← destructure params;
  let key := get p "key" in
  let libraryID := get p "libraryID" in
  if negb (truthy key) then
    throw (rpcError "INVALID_PARAMS" "Item key is required" (Some 400))
  else
    let libID := or_else libraryID userLibraryID in
    item ← call (Items_getByLibraryAndKeyAsync libID key);
    match item with
    | None =>
        s ← template key;
        throw (rpcError "NOT_FOUND" ("Item not found: " +:+ s) (Some 404))
    | Some item => w ← get_world; mret (serializeItem w item)
    end.

(** ** The dispatcher *)

Definition handleRpcRequest (body : value) : M value :=
  b ← destructure body;
  let method := get b "method" in
  let params := with_default (get b "params") (VObj []) in
  if negb (truthy method) then
    throw (rpcError "INVALID_REQUEST" "Method is required" (Some 400))
  else
    s ← template method;
    _ ← Zotero_debug ("Zotero MCP: RPC call - " +:+ s);
    if is_lit method "createCollection" then createCollection params
    else if is_lit method "getCollection" then getCollection params
    else if is_lit method "addToCollection" then addToCollection params
    else if is_lit method "removeFromCollection" then
      removeFromCollection params
    else if is_lit method "searchItems" then searchItems params
    else if is_lit method "getItem" then getItem params
    else if is_lit method "listCollections" then listCollections params
    else
      s' ← template method;
      throw (rpcError "METHOD_NOT_FOUND" ("Unknown method: " +:+ s')
               (Some 404)).

(** The status and the payload that the endpoint's [init] hands to
    [jsonResponse]: 200 with the result, or [error.status || 500] with
    [error.code || "INTERNAL_ERROR"] and the message. *)
Definition rpc_response (r : outcome value) : value * value :=
  match r with
  | Return result => (VNum 200, result)
  | Throw e =>
      (or_else (exn_status e) (VNum 500),
       VObj [("error", or_else (exn_code e) (VStr "INTERNAL_ERROR"));
             ("message", VStr (exn_message e))])
  end.

End Plugin.

(* ===================================================================== *)
(** * What a run of the [addToCollection] loop looks like                 *)
(* ===================================================================== *)

(** [Interleave l a e]: [l] is split into [a] and [e], every element of [l]
    going to exactly one of them, the order kept. *)
Inductive Interleave {A : Type} : list A → list A → list A → Prop :=
  | Interleave_nil : Interleave [] [] []
  | Interleave_left x l a e :
      Interleave l a e → Interleave (x :: l) (x :: a) e
  | Interleave_right x l a e :
      Interleave l a e → Interleave (x :: l) a (x :: e).

(** [e.key] of an entry of [errors]. *)
Definition error_key (entry : value) : value := get entry "key".

(** [Run libID c w keys added errors w']: from world [w], the keys are taken
    in order; each one is either added to the collection or reported, for
    one of five reasons, and the world ends as [w']. *)
Inductive Run `{Host} (libID : value) (c : Collection)
    : World → list value → list value → list value → World → Prop :=
  | Run_nil w : Run libID c w [] [] [] w
  | Run_lookup_failed w k ks m w1 a e w' :
      Items_getByLibraryAndKeyAsync libID k w = (Failed m, w1) →
      Run libID c w1 ks a e w' →
      Run libID c w (k :: ks) a (VObj [("key", k); ("error", VStr m)] :: e) w'
  | Run_missing w k ks w1 a e w' :
      Items_getByLibraryAndKeyAsync libID k w = (Done None, w1) →
      Run libID c w1 ks a e w' →
      Run libID c w (k :: ks) a (VObj [("key", k); ("error", VStr "Item not found")] :: e) w'
  | Run_note_or_attachment w k ks item w1 a e w' :
      Items_getByLibraryAndKeyAsync libID k w = (Done (Some item), w1) →
      isNote item || isAttachment item = true →
      Run libID c w1 ks a e w' →
      Run libID c w (k :: ks) a
        (VObj [("key", k); ("error", VStr "Cannot add notes or attachments directly")] :: e) w'
  | Run_add_failed w k ks item w1 m w2 a e w' :
      Items_getByLibraryAndKeyAsync libID k w = (Done (Some item), w1) →
      isNote item || isAttachment item = false →
      Collection_addItem c (item_id item) w1 = (Failed m, w2) →
      Run libID c w2 ks a e w' →
      Run libID c w (k :: ks) a (VObj [("key", k); ("error", VStr m)] :: e) w'
  | Run_added w k ks item w1 w2 a e w' :
      Items_getByLibraryAndKeyAsync libID k w = (Done (Some item), w1) →
      isNote item || isAttachment item = false →
      Collection_addItem c (item_id item) w1 = (Done tt, w2) →
      Run libID c w2 ks a e w' →
      Run libID c w (k :: ks) (k :: a) e w'.

(* ===================================================================== *)
(** * An in-memory library to run the plugin on                           *)
(* ===================================================================== *)

Record Library : Type := {
  lib_items : list Item;
  lib_collections : list Collection }.

(** Two keys that are the same string. *)
Definition same_key (a b : value) : bool :=
  match a, b with
  | VStr x, VStr y => String.eqb x y
  | _, _ => false
  end.

(** [needle] occurs in [hay]. *)
Fixpoint is_infix (needle hay : string) : bool :=
  String.prefix needle hay ||
  match hay with
  | EmptyString => false
  | String _ hay' => is_infix needle hay'
  end.

Definition title_contains (query : value) (item : Item) : bool :=
  match query, getField item "title" with
  | VStr q, VStr t => is_infix q t
  | _, _ => false
  end.

Definition add_child (c : Collection) (id : Z) : Collection :=
  {| col_id := col_id c; col_key := col_key c; col_name := col_name c;
     col_libraryID := col_libraryID c; col_parentKey := col_parentKey c;
     col_parentID := col_parentID c; col_version := col_version c;
     getChildItems := getChildItems c ++ [id] |}.

Definition remove_child (c : Collection) (id : Z) : Collection :=
  {| col_id := col_id c; col_key := col_key c; col_name := col_name c;
     col_libraryID := col_libraryID c; col_parentKey := col_parentKey c;
     col_parentID := col_parentID c; col_version := col_version c;
     getChildItems := filter (λ i, i ≠ id) (getChildItems c) |}.

Definition update_collection (f : Collection → Collection) (c : Collection)
    (w : Library) : Library :=
  {| lib_items := lib_items w;
     lib_collections :=
       map (λ c', if col_id c' =? col_id c then f c' else c')
           (lib_collections w) |}.

(** The integer a string of decimal digits writes, and 0 (for [NaN]) for
    any other string. *)
Definition decimal_or_zero (s : string) : extint :=
  let digit (c : ascii) : option Z :=
    let n := nat_of_ascii c in
    if ((48 <=? n) && (n <=? 57))%nat then Some (Z.of_nat n - 48) else None in
  match mapM digit (list_ascii_of_string s) with
  | Some ds => Fin (foldl (λ acc d, 10 * acc + d) 0 ds)
  | None => Fin 0
  end.

(** The library answers every call; adding an item that the library does
    not hold fails. *)
Global Instance memory_host : Host := {|
  World := Library;
  Number_toString := λ n, pretty n;
  StringToIntegerOrInfinity := decimal_or_zero;
  userLibraryID := VNum 1;
  CreatorTypes_getName := λ _, VStr "author";
  ItemTypes_getName := λ _, VStr "journalArticle";
  Collections_get := λ w id,
    List.find (λ c, col_id c =? id) (lib_collections w);
  Search_search := λ _ query w,
    (Done (map item_id (List.filter (title_contains query) (lib_items w))), w);
  Items_getAsync := λ ids w,
    (Done (omap (λ id, List.find (λ i, item_id i =? id) (lib_items w)) ids), w);
  Items_getByLibraryAndKeyAsync := λ _ key w,
    (Done (List.find (λ i, same_key (item_key i) key) (lib_items w)), w);
  Collections_getByLibraryAndKeyAsync := λ _ key w,
    (Done (List.find (λ c, same_key (col_key c) key) (lib_collections w)), w);
  Collections_getByLibrary := λ _ w, (Done (lib_collections w), w);
  Collection_saveTx := λ libID name parentID w,
    let c := {| col_id := 1 + Z.of_nat (length (lib_collections w));
                col_key := VStr "NEWCOLL1"; col_name := name;
                col_libraryID := libID; col_parentKey := VUndef;
                col_parentID := parentID; col_version := VNum 0;
                getChildItems := [] |} in
    (Done c, {| lib_items := lib_items w;
                lib_collections := lib_collections w ++ [c] |});
  Collection_addItem := λ c id w,
    if existsb (λ i, item_id i =? id) (lib_items w)
    then (Done tt, update_collection (λ c', add_child c' id) c w)
    else (Failed "Item not found in library", w);
  Collection_removeItem := λ c id w,
    (Done tt, update_collection (λ c', remove_child c' id) c w) |}.

Inductive ItemKind : Type := Regular | Note | Attachment.

(** An item of the library with a title and nothing else. *)
Definition sample_item (id : Z) (key title : string) (kind : ItemKind)
    : Item :=
  {| item_id := id; item_key := VStr key; item_libraryID := VNum 1;
     itemTypeID := 1;
     getField := λ f, if String.eqb f "title" then VStr title else VStr "";
     getCreators := []; getCollections := []; getTags := [];
     dateAdded := VStr "2024-01-01 00:00:00";
     dateModified := VStr "2024-01-01 00:00:00";
     isRegularItem := match kind with Regular => true | _ => false end;
     isNote := match kind with Note => true | _ => false end;
     isAttachment := match kind with Attachment => true | _ => false end |}.

Definition sample_collection : Collection :=
  {| col_id := 1; col_key := VStr "COLL0001"; col_name := VStr "Reading";
     col_libraryID := VNum 1; col_parentKey := VUndef; col_parentID := None;
     col_version := VNum 3; getChildItems := [] |}.

(** Three papers on testing, a note and an attachment. *)
Definition sample_library : Library :=
  {| lib_items :=
       [sample_item 1 "AAAA1111" "Unit testing" Regular;
        sample_item 2 "BBBB2222" "Property testing" Regular;
        sample_item 3 "CCCC3333" "A note on testing" Note;
        sample_item 4 "DDDD4444" "testing.pdf" Attachment;
        sample_item 5 "EEEE5555" "Mutation testing" Regular];
     lib_collections := [sample_collection] |}.

(** A string of white space only ([trim] would leave nothing). *)
Definition is_space (c : ascii) : bool :=
  let n := nat_of_ascii c in
  ((n =? 32) || ((9 <=? n) && (n <=? 13)))%nat.

Definition is_blank (s : string) : bool :=
  forallb is_space (list_ascii_of_string s).

(* ===================================================================== *)
(** * Notions the statements about the plugin use                         *)
(* ===================================================================== *)

(** The commands [handleRpcRequest] has a [case] for. *)
Definition commands : list string :=
  ["createCollection"; "getCollection"; "addToCollection";
   "removeFromCollection"; "searchItems"; "getItem"; "listCollections"].

(** [k in v] for an object [v]: the field is there, whatever it holds. *)
Definition has_field (v : value) (k : string) : bool :=
  match v with
  | VObj fs => existsb (λ kv, String.eqb k kv.1) fs
  | _ => false
  end.

(** A computation that, whenever it throws, throws something in [P]. *)
Definition throws_only {W A} (P : exn → Prop) (c : M W A) : Prop :=
  ∀ w e w', c w = (Throw e, w') → P e.

(** The error is not an [rpcError] with this code. *)
Definition not_code (code : string) (e : exn) : Prop :=
  exn_code e ≠ VStr code.

(** How many regular items the quick search matches in all, no limit
    applied: the hits are loaded and the notes and attachments dropped. *)
Definition matching_regular `{Host} (libID query : value) (w : World)
    : option nat :=
  match Search_search libID query w with
  | (Done ids, w1) =>
      match Items_getAsync ids w1 with
      | (Done items, _) =>
          Some (length (filter (λ item, isRegularItem item = true) items))
      | (Failed _, _) => None
      end
  | (Failed _, _) => None
  end.

(** The ids that [searchItems] keeps of the hits [ids] for a limit that is
    absent or an integer: [ids.slice(0, limit)] read off by cases. *)
Definition kept_ids (limit : option Z) (ids : list Z) : list Z :=
  match limit with
  | None => take 50 ids
  | Some n =>
      if n <? 0 then take (length ids - Z.to_nat (- n)) ids
      else take (Z.to_nat n) ids
  end.

(** The [limit] field of the parameters as [kept_ids] takes it. *)
Definition limit_of (v : value) : option (option Z) :=
  match v with
  | VUndef => Some None
  | VNum n => Some (Some n)
  | _ => None
  end.

(* ===================================================================== *)
(** * The plugin's endpoints, their registration, the bootstrap           *)
(* ===================================================================== *)

(** What the endpoints use besides the object model: [JSON.parse] (which
    throws a [SyntaxError], here [None], on text that is not JSON),
    [JSON.stringify], and [Zotero.version]. *)
Class Runtime : Type := {
  JSON_parse : value → option value;
  JSON_stringify : value → string;
  Zotero_version : value }.

(** [requestData], as far as the plugin reads it. *)
Record RequestData : Type := {
  req_method : value;
  req_data : value }.

(** The array [[status, contentType, body, headers]] an endpoint answers
    with. *)
Record Response : Type := {
  res_status : value;
  res_type : string;
  res_body : string;
  res_headers : list (string * string) }.

Definition cors_headers : list (string * string) :=
  [("Access-Control-Allow-Origin", "*");
   ("Access-Control-Allow-Methods", "GET, POST, OPTIONS");
   ("Access-Control-Allow-Headers", "Content-Type")].

Definition jsonResponse `{Runtime} (status data : value) : Response :=
  {| res_status := status;
     res_type := "application/json";
     res_body := JSON_stringify data;
     res_headers := cors_headers |}.

Definition corsResponse (status : value) (body : string) : Response :=
  {| res_status := status;
     res_type := "text/plain";
     res_body := body;
     res_headers := cors_headers |}.

(** The handler object passed to [registerEndpoint]. *)
Record Endpoint `{Host} : Type := {
  supportedMethods : list string;
  supportedDataTypes : option (list string);
  permitBookmarklet : bool;
  init : RequestData → M World Response }.

Section Endpoints.
Context `{Host} `{Runtime}.

Definition parseRequestBody (requestData : RequestData) : M World value :=
  if negb (truthy (req_data requestData)) then
    throw (rpcError "INVALID_REQUEST" "Request body is required" (Some 400))
  else
    match JSON_parse (req_data requestData) with
    | Some body => mret body
    | None =>
        throw (rpcError "PARSE_ERROR" "Invalid JSON in request body"
                 (Some 400))
    end.

(** [init] of the endpoint "/zotero-mcp/rpc". *)
Definition rpc_init (requestData : RequestData) : M World Response :=
  if is_lit (req_method requestData) "OPTIONS" then
    mret (corsResponse (VNum 204) "")
  else
    try_catch
      (body ← parseRequestBody requestData;
       result ← handleRpcRequest body;
       mret (jsonResponse (VNum 200) result))
      (λ error,
         _ ← Zotero_debug ("Zotero MCP: RPC error - " +:+ exn_message error);
         mret (jsonResponse (or_else (exn_status error) (VNum 500))
                 (VObj [("error",
                         or_else (exn_code error) (VStr "INTERNAL_ERROR"));
                        ("message", VStr (exn_message error))]))).

(** [init] of the endpoint "/zotero-mcp/health". *)
Definition health_init (requestData : RequestData) : M World Response :=
  if is_lit (req_method requestData) "OPTIONS" then
    mret (corsResponse (VNum 204) "")
  else
    mret (jsonResponse (VNum 200)
            (VObj [("status", VStr "ok");
                   ("version", VStr "1.0.0");
                   ("zoteroVersion", Zotero_version)])).

Definition rpc_endpoint : Endpoint :=
  {| supportedMethods := ["POST"; "OPTIONS"];
     supportedDataTypes := Some ["application/json"];
     permitBookmarklet := false;
     init := rpc_init |}.

Definition health_endpoint : Endpoint :=
  {| supportedMethods := ["GET"; "OPTIONS"];
     supportedDataTypes := None;
     permitBookmarklet := false;
     init := health_init |}.

(** The plugin object ([this.endpoints]) beside [Zotero.Server.Endpoints],
    which the plugin writes to directly. *)
Record Registry : Type := {
  endpoints : list string;
  Server_Endpoints : gmap string Endpoint }.

(** [new ZoteroMcpPlugin()] beside the server's endpoints as they are. *)
Definition new_plugin (server : gmap string Endpoint) : Registry :=
  {| endpoints := []; Server_Endpoints := server |}.

Definition registerEndpoint (path : string) (handler : Endpoint)
    (r : Registry) : Registry :=
  {| endpoints := endpoints r ++ [path];
     Server_Endpoints := <[path := handler]> (Server_Endpoints r) |}.

Definition unregisterEndpoints (r : Registry) : Registry :=
  {| endpoints := [];
     Server_Endpoints :=
       foldl (λ server path, delete path server) (Server_Endpoints r)
             (endpoints r) |}.

Definition registerEndpoints (r : Registry) : Registry :=
  registerEndpoint "/zotero-mcp/health" health_endpoint
    (registerEndpoint "/zotero-mcp/rpc" rpc_endpoint r).

(** [startup()] and [shutdown()] of the class; the calls to [Zotero.debug]
    leave no trace here. *)
Definition startup (r : Registry) : Registry := registerEndpoints r.

Definition shutdown (r : Registry) : Registry := unregisterEndpoints r.

(** The bootstrap script: the global [ZoteroMcpBridge], [undefined] (here
    [None]) until [startup] and after [shutdown], beside the server's
    endpoints. *)
Record Bootstrap : Type := {
  ZoteroMcpBridge : option (list string);
  boot_server : gmap string Endpoint }.

(** [startup(...)] of the bootstrap, once [Zotero.initializationPromise]
    has resolved and the main script is loaded. *)
Definition bootstrap_startup (b : Bootstrap) : Bootstrap :=
  let r := startup (new_plugin (boot_server b)) in
  {| ZoteroMcpBridge := Some (endpoints r);
     boot_server := Server_Endpoints r |}.

Definition bootstrap_shutdown (b : Bootstrap) : Bootstrap :=
  match ZoteroMcpBridge b with
  | Some eps =>
      let r := shutdown {| endpoints := eps;
                           Server_Endpoints := boot_server b |} in
      {| ZoteroMcpBridge := None; boot_server := Server_Endpoints r |}
  | None => b
  end.

(** A run of the [removeFromCollection] loop, as [Run] is one of the
    [addToCollection] loop; here no kind of item is turned away. *)
Inductive RemoveRun (libID : value) (c : Collection)
    : World → list value → list value → list value → World → Prop :=
  | RemoveRun_nil w : RemoveRun libID c w [] [] [] w
  | RemoveRun_lookup_failed w k ks m w1 a e w' :
      Items_getByLibraryAndKeyAsync libID k w = (Failed m, w1) →
      RemoveRun libID c w1 ks a e w' →
      RemoveRun libID c w (k :: ks) a (VObj [("key", k); ("error", VStr m)] :: e) w'
  | RemoveRun_missing w k ks w1 a e w' :
      Items_getByLibraryAndKeyAsync libID k w = (Done None, w1) →
      RemoveRun libID c w1 ks a e w' →
      RemoveRun libID c w (k :: ks) a (VObj [("key", k); ("error", VStr "Item not found")] :: e) w'
  | RemoveRun_remove_failed w k ks item w1 m w2 a e w' :
      Items_getByLibraryAndKeyAsync libID k w = (Done (Some item), w1) →
      Collection_removeItem c (item_id item) w1 = (Failed m, w2) →
      RemoveRun libID c w2 ks a e w' →
      RemoveRun libID c w (k :: ks) a (VObj [("key", k); ("error", VStr m)] :: e) w'
  | RemoveRun_removed w k ks item w1 w2 a e w' :
      Items_getByLibraryAndKeyAsync libID k w = (Done (Some item), w1) →
      Collection_removeItem c (item_id item) w1 = (Done tt, w2) →
      RemoveRun libID c w2 ks a e w' →
      RemoveRun libID c w (k :: ks) (k :: a) e w'.

End Endpoints.

(** The errors the plugin makes with [rpcError], by code and status. *)
Definition error_table : list (string * Z) :=
  [("INVALID_REQUEST", 400); ("PARSE_ERROR", 400); ("INVALID_PARAMS", 400);
   ("NOT_FOUND", 404); ("METHOD_NOT_FOUND", 404)].

(** An error that, if it is an [rpcError], is one of the table. *)
Definition tabled (e : exn) : Prop :=
  match e with
  | RpcError code _ status => (code, status) ∈ error_table
  | _ => True
  end.


(** The JSON text of the request [{ method: "listCollections" }]. *)
Definition list_request : string :=
  "{" +:+ dquote +:+ "method" +:+ dquote +:+ ":" +:+
  dquote +:+ "listCollections" +:+ dquote +:+ "}".

(** A runtime to run the endpoints on the sample library: it parses the
    JSON texts [{}], [null] and [list_request], and refuses every other
    text as a syntax error. *)
Global Instance sample_runtime : Runtime := {|
  JSON_parse := λ v,
    match v with
    | VStr s =>
        if String.eqb s "{}" then Some (VObj [])
        else if String.eqb s "null" then Some VNull
        else if String.eqb s list_request
             then Some (VObj [("method", VStr "listCollections")])
        else None
    | _ => None
    end;
  JSON_stringify := λ v,
    match v with
    | VObj (("error", VStr code) :: _) => code
    | _ => "ok"
    end;
  Zotero_version := VStr "7.0.0" |}.

(** ** The build script: [addDirectoryToZip] *)

(** What [fs.readdirSync(dir, { withFileTypes: true })] lists, with the
    content of each sub-directory. *)
Inductive DirEntry : Type :=
  | FileEntry (name : string)
  | DirectoryEntry (name : string) (entries : list DirEntry).

(** [path.join(dirPath, name)] for a normalized [dirPath] and a plain file
    name, with the POSIX separator. *)
Definition path_join (dirPath name : string) : string :=
  dirPath +:+ "/" +:+ name.

(** The calls [zip.addLocalFile(fullPath, zipPath || undefined)] that
    [addDirectoryToZip(dirPath, zipPath)] makes, in order, for one entry of
    the directory; [None] is [undefined]. *)
Fixpoint addEntryToZip (entry : DirEntry) (dirPath zipPath : string)
    : list (string * option string) :=
  match entry with
  | DirectoryEntry name entries =>
      let fullPath := path_join dirPath name in
      let entryZipPath :=
        if String.eqb zipPath "" then name else zipPath +:+ "/" +:+ name in
      (fix each (es : list DirEntry) : list (string * option string) :=
         match es with
         | [] => []
         | e :: es' => addEntryToZip e fullPath entryZipPath ++ each es'
         end) entries
  | FileEntry name =>
      let fullPath := path_join dirPath name in
      [(fullPath, if String.eqb zipPath "" then None else Some zipPath)]
  end.

Definition addDirectoryToZip (entries : list DirEntry)
    (dirPath zipPath : string) : list (string * option string) :=
  flat_map (λ e, addEntryToZip e dirPath zipPath) entries.

(** How many files a tree holds. *)
Fixpoint count_files (entry : DirEntry) : nat :=
  match entry with
  | FileEntry _ => 1%nat
  | DirectoryEntry _ entries =>
      (fix each (es : list DirEntry) : nat :=
         match es with
         | [] => 0%nat
         | e :: es' => (count_files e + each es')%nat
         end) entries
  end.

(** Every file and directory of the tree has a name. *)
Fixpoint well_named (entry : DirEntry) : bool :=
  match entry with
  | FileEntry name => negb (String.eqb name "")
  | DirectoryEntry name entries =>
      negb (String.eqb name "") &&
      (fix each (es : list DirEntry) : bool :=
         match es with
         | [] => true
         | e :: es' => well_named e && each es'
         end) entries
  end.


(** The files of a tree in the order of the listing, each with the names
    of the directories that lead to it from the top of the tree. *)
Fixpoint files_of (entry : DirEntry) : list (list string * string) :=
  match entry with
  | FileEntry name => [([], name)]
  | DirectoryEntry name entries =>
      map (λ df, (name :: df.1, df.2))
        ((fix each (es : list DirEntry) : list (list string * string) :=
            match es with
            | [] => []
            | e :: es' => files_of e ++ each es'
            end) entries)
  end.

(** The folder of the archive that mirrors a chain of directories: none
    ([undefined]) for a file at the top, else the names joined by [/]. *)
Definition folder_of (dirs : list string) : option string :=
  match dirs with
  | [] => None
  | d :: ds => Some (foldl (λ folder name, folder +:+ "/" +:+ name) d ds)
  end.

(** The call [zip.addLocalFile] that mirrors one file of the tree below
    [root]: the file is read from its place on disk and stored in the
    folder of its directory. *)
Definition mirror_call (root : string) (df : list string * string)
    : string * option string :=
  (path_join (foldl path_join root df.1) df.2, folder_of df.1).

(** The add-on directory of the examples: a manifest, a script, and a
    [content] directory with the main script, an icon in [icons] and an
    empty [locale]. *)
Definition sample_addon : list DirEntry :=
  [FileEntry "manifest.json";
   FileEntry "bootstrap.js";
   DirectoryEntry "content"
     [FileEntry "zotero-mcp.js";
      DirectoryEntry "icons" [FileEntry "icon.svg"];
      DirectoryEntry "locale" []]].

(* ===================================================================== *)
(** * Part II.  The relevance-ranking core                                *)
(* ===================================================================== *)

Module Engine.

(** ** Text *)

(** Modelled from the spec: the normalizer of the tokenizer of
    [zotero_mcp.py], which is not among the sources.  Lower case, on the
    letters A to Z. *)
Definition lower (c : ascii) : ascii :=
  let n := nat_of_ascii c in
  if ((65 <=? n) && (n <=? 90))%nat then ascii_of_nat (n + 32) else c.

(** Modelled from the spec: section 4.1, diacritic folding.  A text is a
    sequence of UTF-8 bytes.  The accented letters of the Latin-1 Supplement
    (U+00C0 to U+00FF, the byte 195 and a second byte, given here less 128)
    have a base letter; the others of that block (AE, ETH, O with stroke,
    THORN, sharp s, the two signs) have none. *)
Definition latin1_base (k : nat) : option ascii :=
  let letter (c : string) : option ascii :=
    match c with String x _ => Some x | EmptyString => None end in
  if (k <=? 5)%nat then letter "A"
  else if (k =? 7)%nat then letter "C"
  else if ((8 <=? k) && (k <=? 11))%nat then letter "E"
  else if ((12 <=? k) && (k <=? 15))%nat then letter "I"
  else if (k =? 17)%nat then letter "N"
  else if ((18 <=? k) && (k <=? 22))%nat then letter "O"
  else if ((25 <=? k) && (k <=? 28))%nat then letter "U"
  else if (k =? 29)%nat then letter "Y"
  else if ((32 <=? k) && (k <=? 37))%nat then letter "a"
  else if (k =? 39)%nat then letter "c"
  else if ((40 <=? k) && (k <=? 43))%nat then letter "e"
  else if ((44 <=? k) && (k <=? 47))%nat then letter "i"
  else if (k =? 49)%nat then letter "n"
  else if ((50 <=? k) && (k <=? 54))%nat then letter "o"
  else if ((57 <=? k) && (k <=? 60))%nat then letter "u"
  else if ((k =? 61) || (k =? 63))%nat then letter "y"
  else None.

(** A combining diacritical mark, U+0300 to U+036F: the bytes 204 128 to
    205 175. *)
Definition is_combining (m n : nat) : bool :=
  (((m =? 204) && (128 <=? n) && (n <=? 191)) ||
   ((m =? 205) && (128 <=? n) && (n <=? 175)))%nat.

(** An accented Latin letter becomes its base letter and a combining mark
    is dropped, so that a letter with its accent folds alike whether it is
    written as one character or as two. *)
Fixpoint fold_diacritics (cs : list ascii) : list ascii :=
  match cs with
  | a :: ((b :: rest) as tail) =>
      let m := nat_of_ascii a in
      let n := nat_of_ascii b in
      if is_combining m n then fold_diacritics rest
      else if ((m =? 195) && (128 <=? n) && (n <=? 191))%nat then
        match latin1_base (n - 128) with
        | Some c => c :: fold_diacritics rest
        | None => a :: fold_diacritics tail
        end
      else a :: fold_diacritics tail
  | _ => cs
  end.

(** A letter or a digit.  A byte above 127 that the folding leaves belongs
    to a letter of another script far more often than to punctuation, and
    counts as part of a word. *)
Definition is_alnum (c : ascii) : bool :=
  let n := nat_of_ascii c in
  (((48 <=? n) && (n <=? 57)) || ((65 <=? n) && (n <=? 90)) ||
   ((97 <=? n) && (n <=? 122)) || (128 <=? n))%nat.

(** Modelled from the spec: section 4.1.  The canonical form of a text:
    diacritics folded, then lower case. *)
Definition normalize (s : string) : string :=
  string_of_list_ascii (map lower (fold_diacritics (list_ascii_of_string s))).

Definition flush (cur : list ascii) : list string :=
  match cur with
  | [] => []
  | _ => [string_of_list_ascii cur]
  end.

(** The maximal runs of characters that are not separators, in order; [cur]
    is the run being read. *)
Fixpoint split_on (sep : ascii → bool) (cur : list ascii) (cs : list ascii)
    : list string :=
  match cs with
  | [] => flush cur
  | c :: cs' =>
      if sep c then flush cur ++ split_on sep [] cs'
      else split_on sep (cur ++ [c]) cs'
  end.

(** Modelled from the spec: section 4.1 of the specification of
    [zotero_mcp.py].  The terms of a text: lower case, diacritic-folded,
    split on runs of non-alphanumeric characters, the empty ones dropped,
    repetitions kept. *)
Definition terms_of (text : string) : list string :=
  split_on (λ c, negb (is_alnum c)) [] (list_ascii_of_string (normalize text)).

(** Modelled from the spec: section 4.1.  [None] is [InvalidQuery], for a
    text that is empty or white space only. *)
Definition tokenize (text : string) : option (list string) :=
  if is_blank text then None else Some (terms_of text).

(** The white-space-delimited tokens of a field text, normalized. *)
Definition words_of (text : string) : list string :=
  split_on is_space [] (list_ascii_of_string (normalize text)).

(** ** Trigram similarity *)

(** Modelled from the spec: the glossary's trigram similarity.  The set of
    the overlapping 3-character substrings of a sequence of characters. *)
Fixpoint trigrams_of (cs : list ascii) : gset string :=
  match cs with
  | a :: (b :: c :: _) as rest =>
      {[ string_of_list_ascii [a; b; c] ]} ∪ trigrams_of rest
  | _ => ∅
  end.

(** A word between its blanks, two before and one after, as trigram
    matchers read it: the ends of the word count, and a word with one wrong
    letter in the middle (section 8 has Smoth for Smith) keeps the trigrams
    of its ends. *)
Definition padded (s : string) : list ascii :=
  list_ascii_of_string "  " ++ list_ascii_of_string s ++
  list_ascii_of_string " ".

Definition trigrams (s : string) : gset string :=
  trigrams_of (padded s).

(** [n / d], and 0 when there is nothing to divide by. *)
Definition ratio (n d : nat) : Q :=
  match d with
  | O => 0%Q
  | S _ => (Z.of_nat n # Pos.of_nat d)%Q
  end.

(** The spec names both coefficients and fixes neither. *)
Inductive Coefficient : Type := Dice | Jaccard.

(** Modelled from the spec: section 4.3, "character 3-gram Dice/Jaccard
    coefficient". *)
Definition similarity (coef : Coefficient) (a b : string) : Q :=
  let A := trigrams a in
  let B := trigrams b in
  match coef with
  | Jaccard => ratio (size (A ∩ B)) (size (A ∪ B))
  | Dice => ratio (2 * size (A ∩ B)) (size A + size B)
  end.

Definition Qmax_b (a b : Q) : Q := if Qle_bool a b then b else a.

(** The similarity of the term and the most similar token of the text. *)
Definition best_similarity (coef : Coefficient) (term text : string) : Q :=
  foldr Qmax_b 0%Q (map (similarity coef term) (words_of text)).

(** ** Configuration *)

Inductive MatchSignal : Type := Exact | WordBoundary | Substring | Fuzzy.

Inductive FieldName : Type :=
  | Title | AbstractNote | PublicationTitle | DOI | Url | Year
  | Authors | Tags | CitationKey.

Definition all_fields : list FieldName :=
  [Title; AbstractNote; PublicationTitle; DOI; Url; Year;
   Authors; Tags; CitationKey].

(** Modelled from the spec: sections 3 and 9.  The constants of the engine,
    fixed at process start: a base score per signal, the fuzzy threshold,
    the AND-bonus factor, a weight per field.  The spec gives their order
    and recommends 0.35 and 1.2; it leaves the other values open. *)
Record Config : Type := {
  base : MatchSignal → Q;
  fuzzy_threshold : Q;
  and_bonus : Q;
  weight : FieldName → Q;
  coefficient : Coefficient }.

Definition Qlt_b (a b : Q) : bool := negb (Qle_bool b a).

(** Modelled from the spec: section 3.  What the spec asks of the
    constants: Exact > WordBoundary > Substring > Fuzzy > 0, a threshold in
    (0, 1], a bonus above 1, and positive weights. *)
Definition config_ok (cfg : Config) : bool :=
  Qlt_b (base cfg WordBoundary) (base cfg Exact) &&
  Qlt_b (base cfg Substring) (base cfg WordBoundary) &&
  Qlt_b (base cfg Fuzzy) (base cfg Substring) &&
  Qlt_b 0 (base cfg Fuzzy) &&
  Qlt_b 0 (fuzzy_threshold cfg) && Qle_bool (fuzzy_threshold cfg) 1 &&
  Qlt_b 1 (and_bonus cfg) &&
  forallb (λ f, Qlt_b 0 (weight cfg f)) all_fields.

(** The weights of the README (title and citation key 3, DOI and authors 2,
    tags 1.5, abstract 1), the recommended threshold and bonus, base scores
    in the required order, and the Dice coefficient. *)
Definition example_config : Config :=
  {| base := λ s, match s with
                  | Exact => 100 | WordBoundary => 75
                  | Substring => 50 | Fuzzy => 25
                  end%Q;
     fuzzy_threshold := (35 # 100)%Q;
     and_bonus := (12 # 10)%Q;
     weight := λ f, match f with
                    | Title | CitationKey => 3
                    | DOI | Authors => 2
                    | Tags => 15 # 10
                    | AbstractNote | PublicationTitle | Url | Year => 1
                    end%Q;
     coefficient := Dice |}.

(** [config_ok], as propositions. *)
Record Ordered (cfg : Config) : Prop := {
  exact_above : (base cfg WordBoundary < base cfg Exact)%Q;
  boundary_above : (base cfg Substring < base cfg WordBoundary)%Q;
  substring_above : (base cfg Fuzzy < base cfg Substring)%Q;
  fuzzy_above : (0 < base cfg Fuzzy)%Q;
  threshold_pos : (0 < fuzzy_threshold cfg)%Q;
  threshold_le_1 : (fuzzy_threshold cfg <= 1)%Q;
  bonus_above_1 : (1 < and_bonus cfg)%Q;
  weight_pos : ∀ f, (0 < weight cfg f)%Q }.

(** ** Signal matcher *)

(** Modelled from the spec: section 4.3, Exact.  The field text, normalized
    as a query is, is the term and nothing else. *)
Definition is_exact (term text : string) : bool :=
  bool_decide (terms_of text = [term]).

(** Modelled from the spec: section 4.3, WordBoundary.  The term occurs
    between non-alphanumeric boundaries (or the ends): it is one of the
    maximal alphanumeric runs of the text. *)
Definition is_word_boundary (term text : string) : bool :=
  bool_decide (term ∈ terms_of text).

(** Modelled from the spec: section 4.3, Substring. *)
Definition is_substring (term text : string) : bool :=
  is_infix term (normalize text).

(** Modelled from the spec: section 4.3.  The signals that apply to a
    (term, field text) pair, strongest tier first, each with its score; the
    fuzzy one applies from the threshold on and is scaled by the
    similarity. *)
Definition applicable (cfg : Config) (term text : string)
    : list (MatchSignal * Q) :=
  (if is_exact term text then [(Exact, base cfg Exact)] else []) ++
  (if is_word_boundary term text
   then [(WordBoundary, base cfg WordBoundary)] else []) ++
  (if is_substring term text then [(Substring, base cfg Substring)] else []) ++
  (let s := best_similarity (coefficient cfg) term text in
   if Qle_bool (fuzzy_threshold cfg) s
   then [(Fuzzy, (base cfg Fuzzy * s)%Q)] else []).

(** Modelled from the spec: section 4.3.  Only the strongest signal that
    applies counts. *)
Definition matchSignal (cfg : Config) (term text : string)
    : option (MatchSignal * Q) :=
  head (applicable cfg term text).

Definition signalScore (cfg : Config) (term text : string) : Q :=
  match matchSignal cfg term text with
  | Some (_, x) => x
  | None => 0%Q
  end.

(** ** Items and field extraction *)

Record Creator : Type := {
  firstName : string;
  lastName : string;
  creatorType : string }.

(** Modelled from the spec: section 3, LibraryItem, with the free-text
    "extra" field that section 4.6 reads. *)
Record LibraryItem : Type := {
  key : string;
  itemType : string;
  title : option string;
  abstractNote : option string;
  publicationTitle : option string;
  doi : option string;
  url : option string;
  year : option string;
  extra : option string;
  creators : list Creator;
  tags : list string;
  collectionKeys : list string;
  dateAdded : Z;
  dateModified : Z }.

Definition join (sep : string) (parts : list string) : string :=
  match parts with
  | [] => ""
  | p :: ps => foldl (λ acc x, acc +:+ sep +:+ x) p ps
  end.

Definition present (f : FieldName) (text : option string)
    : list (FieldName * string) :=
  match text with
  | None | Some "" => []
  | Some t => [(f, t)]
  end.

(** Modelled from the spec: section 4.2.  The fields of an item to search,
    the empty ones left out; [citekey] is what the citation-key resolver
    answered for the item. *)
Definition extract_fields (item : LibraryItem) (citekey : option string)
    : list (FieldName * string) :=
  present Title (title item) ++
  present AbstractNote (abstractNote item) ++
  present PublicationTitle (publicationTitle item) ++
  present DOI (doi item) ++
  present Url (url item) ++
  present Year (year item) ++
  present Authors
    (Some (join " " (map (λ c, lastName c +:+ " " +:+ firstName c)
                         (creators item)))) ++
  present Tags (Some (join " " (tags item))) ++
  present CitationKey citekey.

(** ** Scorer *)

Definition Qsum (xs : list Q) : Q := foldr Qplus 0%Q xs.

(** Modelled from the spec: section 4.4.  What a term contributes: over
    all fields, the sum of signal score times field weight. *)
Definition contribution (cfg : Config) (fields : list (FieldName * string))
    (term : string) : Q :=
  Qsum (map (λ ft, (signalScore cfg term ft.2 * weight cfg ft.1)%Q) fields).

Definition raw_score (cfg : Config) (fields : list (FieldName * string))
    (terms : list string) : Q :=
  Qsum (map (contribution cfg fields) terms).

(** Every term of the query contributed. *)
Definition all_terms_matched (cfg : Config)
    (fields : list (FieldName * string)) (terms : list string) : bool :=
  forallb (λ t, Qlt_b 0 (contribution cfg fields t)) terms.

(** Modelled from the spec: section 4.4.  The raw score, times the
    AND-bonus when every term contributed. *)
Definition item_score (cfg : Config) (fields : list (FieldName * string))
    (terms : list string) : Q :=
  if all_terms_matched cfg fields terms
  then (and_bonus cfg * raw_score cfg fields terms)%Q
  else raw_score cfg fields terms.

Definition matched_fields (cfg : Config) (fields : list (FieldName * string))
    (terms : list string) : list FieldName :=
  map fst
    (List.filter
       (λ ft, existsb (λ t, Qlt_b 0 (signalScore cfg t ft.2)) terms) fields).

Record ScoredResult : Type := {
  item : LibraryItem;
  score : Q;
  matchedFields : list FieldName }.

Definition score_item (cfg : Config) (terms : list string)
    (it : LibraryItem) (citekey : option string) : ScoredResult :=
  let fields := extract_fields it citekey in
  {| item := it;
     score := item_score cfg fields terms;
     matchedFields := matched_fields cfg fields terms |}.

(** ** Citation-key resolver *)

Definition is_prefix_ci (prefix : string) (line : list ascii) : bool :=
  bool_decide
    (map lower (take (String.length prefix) line)
     = list_ascii_of_string prefix).

Fixpoint take_while {A : Type} (f : A → bool) (l : list A) : list A :=
  match l with
  | x :: l' => if f x then x :: take_while f l' else []
  | [] => []
  end.

Fixpoint drop_while {A : Type} (f : A → bool) (l : list A) : list A :=
  match l with
  | x :: l' => if f x then drop_while f l' else l
  | [] => []
  end.

(** The key token after a prefix: the first run of non-blank characters. *)
Definition key_token (rest : list ascii) : option string :=
  match take_while (λ c, negb (is_space c)) (drop_while is_space rest) with
  | [] => None
  | t => Some (string_of_list_ascii t)
  end.

Definition parse_line (line : list ascii) : option string :=
  let l := drop_while is_space line in
  if is_prefix_ci "citation key:" l then key_token (drop 13 l)
  else if is_prefix_ci "bibtex:" l then key_token (drop 7 l)
  else None.

Definition is_newline (c : ascii) : bool :=
  let n := nat_of_ascii c in ((n =? 10) || (n =? 13))%nat.

Fixpoint lines_from (cur : list ascii) (cs : list ascii)
    : list (list ascii) :=
  match cs with
  | [] => [cur]
  | c :: cs' =>
      if is_newline c then cur :: lines_from [] cs'
      else lines_from (cur ++ [c]) cs'
  end.

Fixpoint first_some {A B : Type} (f : A → option B) (l : list A) : option B :=
  match l with
  | [] => None
  | x :: l' => match f x with Some y => Some y | None => first_some f l' end
  end.

(** Modelled from the spec: section 4.6, step 2.  The key of the first
    line of "extra" that reads [Citation Key:] or [bibtex:], in any case,
    followed by a key token. *)
Definition parse_extra (text : string) : option string :=
  first_some parse_line (lines_from [] (list_ascii_of_string text)).

(** The secondary store, when one is configured: a manager-assigned key per
    item key.  A lookup that fails counts as one that finds nothing. *)
Definition Store : Type := option (string → option string).

Definition lookupKey (store : Store) (k : string) : option string :=
  match store with
  | Some f => f k
  | None => None
  end.

(** Modelled from the spec: section 4.6, steps 2 to 4 without the cache:
    the "extra" field first, the secondary store after it. *)
Definition lookup_sources (store : Store) (it : LibraryItem) : option string :=
  match extra it ≫= parse_extra with
  | Some k => Some k
  | None => lookupKey store (key it)
  end.

(** Modelled from the spec: section 4.6.  The cache maps an item key to
    what was resolved for it, [None] being the "absent" sentinel; a key
    that is not in the map has not been resolved yet. *)
Definition resolve (store : Store) (cache : gmap string (option string))
    (it : LibraryItem) : option string * gmap string (option string) :=
  match cache !! key it with
  | Some cached => (cached, cache)
  | None =>
      match extra it ≫= parse_extra with
      | Some k => (Some k, <[key it := Some k]> cache)
      | None =>
          match lookupKey store (key it) with
          | Some k => (Some k, <[key it := Some k]> cache)
          | None => (None, <[key it := None]> cache)
          end
      end
  end.

(** The items resolved one after the other, the cache handed on. *)
Fixpoint resolve_all (store : Store) (cache : gmap string (option string))
    (its : list LibraryItem)
    : list (option string) * gmap string (option string) :=
  match its with
  | [] => ([], cache)
  | it :: its' =>
      let (k, cache1) := resolve store cache it in
      let (ks, cache2) := resolve_all store cache1 its' in
      (k :: ks, cache2)
  end.

(** ** Ranker *)

(** Modelled from the spec: section 4.5.  [a] is ranked at or before [b]:
    score descending, then [dateAdded] descending, then [key] ascending. *)
Definition before (a b : ScoredResult) : bool :=
  match (score a ?= score b)%Q with
  | Gt => true
  | Lt => false
  | Eq =>
      match (dateAdded (item a) ?= dateAdded (item b))%Z with
      | Gt => true
      | Lt => false
      | Eq => String.leb (key (item a)) (key (item b))
      end
  end.

Definition ranked (a b : ScoredResult) : Prop := before a b = true.

Global Instance ranked_dec (a b : ScoredResult) : Decision (ranked a b) :=
  decide (before a b = true).

Definition rank (results : list ScoredResult) : list ScoredResult :=
  merge_sort ranked results.

(** Modelled from the spec: section 4.5.  An absent limit is 50, and a
    limit below 1 is 1. *)
Definition clamp_limit (limit : option Z) : nat :=
  match limit with
  | None => 50%nat
  | Some n => Z.to_nat (Z.max 1 n)
  end.

Record SearchOutput : Type := {
  query : string;
  total : nat;
  items : list ScoredResult }.

(** The survivors: the results with a nonzero score. *)
Definition survivors (results : list ScoredResult) : list ScoredResult :=
  filter (λ r, Qlt_b 0 (score r) = true) results.

(** Modelled from the spec: sections 2 and 4.  One search: tokenize, resolve
    the citation key of each candidate through the cache, score, drop the
    zero scores, rank, count, truncate.  [None] is [InvalidQuery]. *)
Definition search (cfg : Config) (store : Store)
    (cache : gmap string (option string))
    (text : string) (limit : option Z) (candidates : list LibraryItem)
    : option (SearchOutput * gmap string (option string)) :=
  match tokenize text with
  | None => None
  | Some terms =>
      let (citekeys, cache') := resolve_all store cache candidates in
      let alive :=
        survivors (zip_with (score_item cfg terms) candidates citekeys) in
      Some ({| query := text;
               total := length alive;
               items := take (clamp_limit limit) (rank alive) |}, cache')
  end.

(** The cache agrees with the sources on the items at hand. *)
Definition cache_sound (store : Store) (its : list LibraryItem)
    (cache : gmap string (option string)) : Prop :=
  ∀ it cached, it ∈ its → cache !! key it = Some cached →
               cached = lookup_sources store it.

(** The key identifies the item: two candidates with one key are one item
    (section 3: the key is the item's identity). *)
Definition keyed (its : list LibraryItem) : Prop :=
  ∀ a b, a ∈ its → b ∈ its → key a = key b → a = b.

(** The ranked survivors of a list of candidates whose citation keys come
    straight from the sources. *)
Definition alive_of (cfg : Config) (store : Store) (terms : list string)
    (its : list LibraryItem) : list ScoredResult :=
  survivors
    (map (λ it, score_item cfg terms it (lookup_sources store it)) its).

(** A small library for the examples. *)
Definition paper (k t : string) (ex : option string) (added : Z)
    : LibraryItem :=
  {| key := k; itemType := "journalArticle"; title := Some t;
     abstractNote := None; publicationTitle := None; doi := None;
     url := None; year := None; extra := ex; creators := []; tags := [];
     collectionKeys := []; dateAdded := added; dateModified := added |}.

Definition nerf : LibraryItem :=
  paper "NERF0001" "Neural Radiance Fields for View Synthesis"
        (Some "Citation Key: ABC123") 20.

Definition gauss : LibraryItem :=
  paper "GAUS0002" "Gaussian Splatting for Radiance Field Rendering" None 30.

Definition survey : LibraryItem :=
  paper "SURV0003" "A Survey of Neural Rendering" (Some "bibtex: tewari2020") 10.

Definition example_store : Store :=
  Some (λ k, if String.eqb k "NERF0001" then Some "XYZ999"
             else if String.eqb k "GAUS0002" then Some "kerbl2023"
             else None).

End Engine.

(* ===================================================================== *)
(** * Part I, facts: the monad                                            *)
(* ===================================================================== *)

Section MonadFacts.
Context {W : Type}.

Lemma bind_run {A B} (c : M W A) (f : A → M W B) (w : W) :
  (c ≫= f) w =
  match c w with
  | (Return a, w') => f a w'
  | (Throw e, w') => (Throw e, w')
  end.
Proof. reflexivity. Qed.

Lemma call_run {A} (op : W → answer A * W) (w : W) :
  call op w =
  match op w with
  | (Done a, w') => (Return a, w')
  | (Failed m, w') => (Throw (HostError m), w')
  end.
Proof. reflexivity. Qed.

Lemma destructure_run (v : value) (w : W) :
  v ≠ VUndef → v ≠ VNull → destructure v w = (Return v, w).
Proof. intros Hu Hn. destruct v; try reflexivity; congruence. Qed.

Lemma throws_only_ret {A} (P : exn → Prop) (a : A) :
  throws_only (W:=W) P (mret a).
Proof. intros w e w' Heq. discriminate Heq. Qed.

Lemma throws_only_throw {A} (P : exn → Prop) (e : exn) :
  P e → throws_only (W:=W) (A:=A) P (throw e).
Proof. intros HP w e' w' Heq. injection Heq as <- _. exact HP. Qed.

Lemma throws_only_call {A} (P : exn → Prop) (op : W → answer A * W) :
  (∀ m, P (HostError m)) → throws_only P (call op).
Proof.
  intros HP w e w' Heq. rewrite call_run in Heq.
  destruct (op w) as [[a|m] w1]; [discriminate|].
  injection Heq as <- _. apply HP.
Qed.

Lemma throws_only_destructure (P : exn → Prop) (v : value) :
  (∀ m, P (TypeError m)) → throws_only (W:=W) P (destructure v).
Proof.
  intros HP w e w' Heq.
  destruct v; simpl in Heq; try discriminate;
    injection Heq as <- _; apply HP.
Qed.

Lemma throws_only_get_world (P : exn → Prop) :
  throws_only (W:=W) P get_world.
Proof. intros w e w' Heq. discriminate Heq. Qed.

Lemma throws_only_bind {A B} (P : exn → Prop) (c : M W A) (f : A → M W B) :
  throws_only P c → (∀ a, throws_only P (f a)) → throws_only P (c ≫= f).
Proof.
  intros Hc Hf w e w' Heq. rewrite bind_run in Heq.
  destruct (c w) as [[a|e1] w1] eqn:Hcw.
  - exact (Hf a w1 e w' Heq).
  - injection Heq as <- _. exact (Hc w e1 w1 Hcw).
Qed.

Lemma throws_only_try_catch {A} (P : exn → Prop) (c : M W A)
    (h : exn → M W A) :
  (∀ e, throws_only P (h e)) → throws_only P (try_catch c h).
Proof.
  intros Hh w e w' Heq. unfold try_catch in Heq.
  destruct (c w) as [[a|e1] w1]; [discriminate|].
  exact (Hh e1 w1 e w' Heq).
Qed.

End MonadFacts.

Section ConversionFacts.
Context `{Host}.

Lemma template_run (v : value) (w : World) :
  template v w =
  match ToString v with
  | Some s => (Return s, w)
  | None => (Throw conversion_error, w)
  end.
Proof. unfold template. destruct (ToString v); reflexivity. Qed.

Lemma slice_index_run (v : value) (w : World) :
  slice_index v w =
  match ToIntegerOrInfinity v with
  | Some k => (Return k, w)
  | None => (Throw conversion_error, w)
  end.
Proof. unfold slice_index. destruct (ToIntegerOrInfinity v); reflexivity. Qed.

Lemma throws_only_template (P : exn → Prop) (v : value) :
  P conversion_error → throws_only P (template v).
Proof.
  intros HP w e w' Heq. rewrite template_run in Heq.
  destruct (ToString v); [discriminate|]. injection Heq as <- _. exact HP.
Qed.

Lemma throws_only_slice_index (P : exn → Prop) (v : value) :
  P conversion_error → throws_only P (slice_index v).
Proof.
  intros HP w e w' Heq. rewrite slice_index_run in Heq.
  destruct (ToIntegerOrInfinity v); [discriminate|].
  injection Heq as <- _. exact HP.
Qed.

Lemma throws_only_debug (P : exn → Prop) (message : string) :
  throws_only P (Zotero_debug message).
Proof. intros w e w' Heq. discriminate Heq. Qed.

(** A string, a number and a boolean always convert. *)
Lemma ToString_string (s : string) : ToString (VStr s) = Some s.
Proof. reflexivity. Qed.

End ConversionFacts.

(** One step of a proof that a command throws only what [P] allows. *)
Ltac throws_step :=
  first
    [ apply throws_only_ret
    | apply throws_only_get_world
    | apply throws_only_debug
    | apply throws_only_template
    | apply throws_only_slice_index
    | apply throws_only_call; intros ?
    | apply throws_only_destructure; intros ?
    | apply throws_only_throw
    | apply throws_only_bind; [|intros ?]
    | match goal with
      | |- throws_only _ (if ?b then _ else _) => destruct b
      | |- throws_only _ (match ?x with _ => _ end) => destruct x
      end ].

Lemma slice0_fin {A} (l : list A) (n : Z) :
  slice0 l (Fin n) =
  if n <? 0 then take (length l - Z.to_nat (- n)) l else take (Z.to_nat n) l.
Proof.
  unfold slice0, slice_final. destruct (n <? 0) eqn:E.
  - f_equal. lia.
  - apply Z.ltb_ge in E.
    destruct (decide (n ≤ Z.of_nat (length l))) as [Hle|Hgt].
    + f_equal. lia.
    + rewrite !take_ge by lia. reflexivity.
Qed.

Lemma slice0_length {A} (l : list A) (n : Z) :
  0 ≤ n → Z.of_nat (length (slice0 l (Fin n))) = Z.min n (Z.of_nat (length l)).
Proof.
  intros Hn. unfold slice0, slice_final.
  destruct (n <? 0) eqn:E; [lia|]. rewrite length_take. lia.
Qed.

(* ===================================================================== *)
(** * Part I, facts: [searchItems]                                        *)
(* ===================================================================== *)

Section SearchFacts.
Context `{Host}.

(** The guard [!query || typeof query !== "string"] lets through the
    non-empty strings and nothing else. *)
Lemma query_guard (v : value) :
  negb (truthy v) || negb (is_string v) = false ↔
  ∃ q, v = VStr q ∧ q ≠ "".
Proof.
  split.
  - destruct v as [| |b|n|s|xs|fs]; simpl; intros Hg;
      try discriminate; try (destruct b; discriminate);
      try (rewrite orb_true_r in Hg; discriminate).
    exists s. split; [reflexivity|].
    intros ->. discriminate.
  - intros (q & -> & Hq). simpl.
    destruct (String.eqb_spec q ""); [contradiction|reflexivity].
Qed.

Lemma searchItems_rejects (p : value) (w : World) :
  p ≠ VUndef → p ≠ VNull →
  (¬ ∃ q, get p "query" = VStr q ∧ q ≠ "") →
  searchItems p w =
  (Throw (RpcError "INVALID_PARAMS" "Search query is required" 400), w).
Proof.
  intros Hu Hn Hq. unfold searchItems.
  rewrite bind_run, destructure_run by assumption.
  destruct (negb (truthy (get p "query")) || negb (is_string (get p "query")))
    eqn:Hg; [reflexivity|].
  apply query_guard in Hg. contradiction.
Qed.

(** What [searchItems] does once the query has passed the guard. *)
Lemma searchItems_run (p : value) (w : World) (q : string) :
  p ≠ VUndef → p ≠ VNull → get p "query" = VStr q → q ≠ "" →
  searchItems p w =
  match Search_search (or_else (get p "libraryID") userLibraryID) (VStr q) w
  with
  | (Failed m, w1) => (Throw (HostError m), w1)
  | (Done ids, w1) =>
      match ToIntegerOrInfinity (with_default (get p "limit") (VNum 50)) with
      | None => (Throw conversion_error, w1)
      | Some relEnd =>
          match Items_getAsync (slice0 ids relEnd) w1 with
          | (Failed m, w2) => (Throw (HostError m), w2)
          | (Done items, w2) =>
              let regular :=
                filter (λ item, isRegularItem item = true) items in
              (Return (VObj [("query", VStr q);
                             ("total", VLen regular);
                             ("items", VArr (map (serializeItem w2) regular))]),
               w2)
          end
      end
  end.
Proof.
  intros Hu Hn Hq Hne. unfold searchItems.
  rewrite bind_run, destructure_run by assumption.
  rewrite Hq.
  assert (Hg : negb (truthy (VStr q)) || negb (is_string (VStr q)) = false)
    by (apply query_guard; eauto).
  rewrite Hg, bind_run, call_run.
  destruct (Search_search _ _ w) as [[ids|m] w1]; [|reflexivity].
  rewrite bind_run, slice_index_run.
  destruct (ToIntegerOrInfinity _) as [relEnd|]; [|reflexivity].
  rewrite bind_run, call_run.
  destruct (Items_getAsync _ w1) as [[items|m] w2]; reflexivity.
Qed.

(** Every result of [searchItems] comes about in this one way. *)
Lemma searchItems_returns (p : value) (w : World) (r : value) (w' : World) :
  searchItems p w = (Return r, w') →
  ∃ q ids w1 relEnd items,
    get p "query" = VStr q ∧ q ≠ "" ∧
    Search_search (or_else (get p "libraryID") userLibraryID) (VStr q) w
      = (Done ids, w1) ∧
    ToIntegerOrInfinity (with_default (get p "limit") (VNum 50))
      = Some relEnd ∧
    Items_getAsync (slice0 ids relEnd) w1 = (Done items, w') ∧
    r = VObj [("query", VStr q);
              ("total", VLen (filter (λ item, isRegularItem item = true) items));
              ("items",
               VArr (map (serializeItem w')
                       (filter (λ item, isRegularItem item = true) items)))].
Proof.
  intros Hrun.
  assert (Hu : p ≠ VUndef) by (intros ->; discriminate Hrun).
  assert (Hn : p ≠ VNull) by (intros ->; discriminate Hrun).
  destruct (negb (truthy (get p "query")) || negb (is_string (get p "query")))
    eqn:Hg.
  - rewrite searchItems_rejects in Hrun; [discriminate|assumption..|].
    intros Hq. apply query_guard in Hq. congruence.
  - apply query_guard in Hg as (q & Hq & Hne).
    rewrite (searchItems_run p w q) in Hrun by assumption.
    destruct (Search_search _ _ w) as [[ids|m] w1] eqn:Hs; [|discriminate].
    destruct (ToIntegerOrInfinity _) as [relEnd|] eqn:Hk; [|discriminate].
    destruct (Items_getAsync _ w1) as [[items|m] w2] eqn:Hi; [|discriminate].
    simpl in Hrun. injection Hrun as <- <-.
    exists q, ids, w1, relEnd, items. rewrite Hs. repeat split; auto.
Qed.

End SearchFacts.

(** C8.  Whatever [searchItems] returns, its [items] are the serialized
    regular items among those loaded for the kept ids (the filter runs after
    the search and the loading), every one of them satisfies
    [isRegularItem], and [total] is their number. *)
Theorem searchItems_only_regular_items `{Host}
    (p : value) (w : World) (r : value) (w' : World) :
  searchItems p w = (Return r, w') →
  ∃ (ids : list Z) (w1 : World) (loaded regular : list Item),
    Items_getAsync ids w1 = (Done loaded, w') ∧
    regular = filter (λ item, isRegularItem item = true) loaded ∧
    Forall (λ item, isRegularItem item = true) regular ∧
    get r "items" = VArr (map (serializeItem w') regular) ∧
    get r "total" = VLen regular.
Proof.
  intros Hrun.
  apply searchItems_returns in Hrun
    as (q & hits & w1 & relEnd & loaded & _ & _ & _ & _ & Hload & ->).
  eexists _, w1, loaded, _. split; [exact Hload|].
  split; [reflexivity|]. split; [|split; reflexivity].
  apply Forall_forall. intros item Hin.
  apply list_elem_of_filter in Hin. tauto.
Qed.

Lemma searchItems_only_regular_items_witness :
  ∃ (r : value) (w' : Library),
    searchItems (VObj [("query", VStr "testing")]) sample_library
      = (Return r, w') ∧
    ∃ (ids : list Z) (w1 : Library) (loaded regular : list Item),
      Items_getAsync ids w1 = (Done loaded, w') ∧
      regular = filter (λ item, isRegularItem item = true) loaded ∧
      Forall (λ item, isRegularItem item = true) regular ∧
      get r "items" = VArr (map (serializeItem w') regular) ∧
      get r "total" = VLen regular.
Proof.
  eexists _, _. split; [vm_compute; reflexivity|].
  apply (searchItems_only_regular_items (H:=memory_host)
           (VObj [("query", VStr "testing")]) sample_library).
  vm_compute; reflexivity.
Defined.

(** C1, as the code has it.  [total] is the number of items returned: the
    hits are cut to the limit first, the kept ids are loaded, the notes and
    attachments are dropped, and what is left is both counted and returned.
    So [total] equals [items.length], and is never below it; and for a limit
    [n >= 0], when Zotero loads at most one item per id, that number is at
    most [n], which makes it [min(total, n)]. *)
Theorem searchItems_total_counts_returned `{Host}
    (p : value) (w : World) (r : value) (w' : World) :
  searchItems p w = (Return r, w') →
  ∃ (q : string) (hits : list Z) (w1 : World) (relEnd : extint)
    (loaded : list Item) (served : list value),
    Search_search (or_else (get p "libraryID") userLibraryID) (VStr q) w
      = (Done hits, w1) ∧
    ToIntegerOrInfinity (with_default (get p "limit") (VNum 50))
      = Some relEnd ∧
    Items_getAsync (slice0 hits relEnd) w1 = (Done loaded, w') ∧
    served = map (serializeItem w')
               (filter (λ item, isRegularItem item = true) loaded) ∧
    get r "items" = VArr served ∧
    get r "total" = VLen served ∧
    (∀ n : Z,
       with_default (get p "limit") (VNum 50) = VNum n → 0 ≤ n →
       (length loaded ≤ length (slice0 hits (Fin n)))%nat →
       Z.of_nat (length served) ≤ n ∧
       VLen served = VNum (Z.min (Z.of_nat (length served)) n)).
Proof.
  intros Hrun.
  apply searchItems_returns in Hrun
    as (q & hits & w1 & relEnd & loaded & _ & _ & Hs & Hk & Hload & ->).
  eexists q, hits, w1, relEnd, loaded, _.
  split; [exact Hs|]. split; [exact Hk|]. split; [exact Hload|].
  split; [reflexivity|].
  split; [reflexivity|]. split.
  { unfold VLen. simpl. rewrite length_map. reflexivity. }
  intros n Hlim Hn Hle.
  assert (Hserved : Z.of_nat (length (map (serializeItem w')
             (filter (λ item, isRegularItem item = true) loaded))) ≤ n).
  { rewrite length_map.
    pose proof (length_filter (λ item, isRegularItem item = true) loaded).
    pose proof (slice0_length hits n Hn). lia. }
  split; [exact Hserved|]. unfold VLen. f_equal. lia.
Qed.

Lemma searchItems_total_counts_returned_witness :
  ∃ (r : value) (w' : Library),
    searchItems (VObj [("query", VStr "testing"); ("limit", VNum 1)])
      sample_library = (Return r, w') ∧
    ∃ (q : string) (hits : list Z) (w1 : Library) (relEnd : extint)
      (loaded : list Item) (served : list value),
      Search_search (VNum 1) (VStr q) sample_library = (Done hits, w1) ∧
      ToIntegerOrInfinity (VNum 1) = Some relEnd ∧
      Items_getAsync (slice0 hits relEnd) w1 = (Done loaded, w') ∧
      served = map (serializeItem w')
                 (filter (λ item, isRegularItem item = true) loaded) ∧
      get r "items" = VArr served ∧
      get r "total" = VLen served ∧
      (∀ n : Z,
         VNum 1 = VNum n → 0 ≤ n →
         (length loaded ≤ length (slice0 hits (Fin n)))%nat →
         Z.of_nat (length served) ≤ n ∧
         VLen served = VNum (Z.min (Z.of_nat (length served)) n)).
Proof.
  eexists _, _. split; [vm_compute; reflexivity|].
  apply (searchItems_total_counts_returned (H:=memory_host)
           (VObj [("query", VStr "testing"); ("limit", VNum 1)])
           sample_library).
  vm_compute; reflexivity.
Defined.

(** C1 as stated fails: three regular items of the sample library match
    "testing", the limit is 1, and the reported [total] is 1, not 3. *)
Lemma searchItems_total_is_not_all_matches :
  ∃ (r : value) (w' : Library),
    searchItems (VObj [("query", VStr "testing"); ("limit", VNum 1)])
      sample_library = (Return r, w') ∧
    matching_regular (VNum 1) (VStr "testing") sample_library = Some 3%nat ∧
    get r "total" = VNum 1 ∧
    get r "total" ≠ VNum 3.
Proof.
  eexists _, _. split; [vm_compute; reflexivity|].
  split; [vm_compute; reflexivity|].
  split; [vm_compute; reflexivity|].
  vm_compute. discriminate.
Qed.

(** C2, as the code has it.  Once the quick search has answered: an absent
    [limit] is 50; an integer limit is not clamped, it is the end index of
    [slice(0, limit)], so 0 keeps no hit and [-k] keeps all but the last
    [k]; a limit of any other type is converted as [slice] converts it.  The
    limit makes the search fail in one case only, a limit whose conversion
    throws (an object with an own [toString], an array that holds one),
    which gives a [TypeError]; otherwise, when Zotero loads the kept ids,
    [searchItems] returns its result for them. *)
Theorem searchItems_limit_is_slice_end `{Host}
    (p : value) (w : World) (q : string) (hits : list Z) (w1 : World) :
  p ≠ VUndef → p ≠ VNull →
  get p "query" = VStr q → q ≠ "" →
  Search_search (or_else (get p "libraryID") userLibraryID) (VStr q) w
    = (Done hits, w1) →
  (∀ lim, limit_of (get p "limit") = Some lim →
     ToIntegerOrInfinity (with_default (get p "limit") (VNum 50)) ≠ None ∧
     ∀ loaded w',
       Items_getAsync (kept_ids lim hits) w1 = (Done loaded, w') →
       searchItems p w =
       (Return
          (VObj [("query", VStr q);
                 ("total",
                  VLen (filter (λ item, isRegularItem item = true) loaded));
                 ("items",
                  VArr (map (serializeItem w')
                          (filter (λ item, isRegularItem item = true)
                             loaded)))]),
        w')) ∧
  (∀ relEnd loaded w',
     ToIntegerOrInfinity (with_default (get p "limit") (VNum 50))
       = Some relEnd →
     Items_getAsync (slice0 hits relEnd) w1 = (Done loaded, w') →
     searchItems p w =
     (Return
        (VObj [("query", VStr q);
               ("total",
                VLen (filter (λ item, isRegularItem item = true) loaded));
               ("items",
                VArr (map (serializeItem w')
                        (filter (λ item, isRegularItem item = true) loaded)))]),
      w')) ∧
  (ToIntegerOrInfinity (with_default (get p "limit") (VNum 50)) = None ↔
   searchItems p w = (Throw conversion_error, w1)).
Proof.
  intros Hu Hn Hq Hne Hs.
  rewrite (searchItems_run p w q) by assumption. rewrite Hs.
  split; [|split].
  - intros lim Hlim.
    assert (Hkept :
      ToIntegerOrInfinity (with_default (get p "limit") (VNum 50)) = Some
        (match lim with None => Fin 50 | Some n => Fin n end) ∧
      slice0 hits (match lim with None => Fin 50 | Some n => Fin n end)
      = kept_ids lim hits).
    { destruct (get p "limit") as [| |b|n|s|xs|fs]; simpl in Hlim;
        try discriminate; injection Hlim as <-; simpl.
      - split; [reflexivity|]. rewrite slice0_fin. reflexivity.
      - split; [reflexivity|]. apply slice0_fin. }
    destruct Hkept as [Hk Hkept]. rewrite Hk.
    split; [discriminate|].
    intros loaded w' Hload. rewrite Hkept, Hload. reflexivity.
  - intros relEnd loaded w' -> ->. reflexivity.
  - destruct (ToIntegerOrInfinity _) as [relEnd|]; split;
      try reflexivity; try discriminate.
    destruct (Items_getAsync _ w1) as [[items|m] w2]; discriminate.
Qed.

Lemma searchItems_limit_is_slice_end_witness :
  kept_ids (Some (-1)) [1; 2; 3; 4; 5] = [1; 2; 3; 4] ∧
  (∃ (loaded : list Item),
     Items_getAsync (kept_ids (Some (-1)) [1; 2; 3; 4; 5]) sample_library
       = (Done loaded, sample_library) ∧
     searchItems (VObj [("query", VStr "testing"); ("limit", VNum (-1))])
       sample_library =
     (Return
        (VObj [("query", VStr "testing");
               ("total",
                VLen (filter (λ item, isRegularItem item = true) loaded));
               ("items",
                VArr (map (serializeItem sample_library)
                        (filter (λ item, isRegularItem item = true) loaded)))]),
      sample_library)) ∧
  searchItems (VObj [("query", VStr "testing");
                     ("limit", VObj [("toString", VNum 1)])])
    sample_library = (Throw conversion_error, sample_library).
Proof.
  split; [reflexivity|]. split.
  - eexists. split; [vm_compute; reflexivity|].
    apply (proj1 (searchItems_limit_is_slice_end (H:=memory_host)
             (VObj [("query", VStr "testing"); ("limit", VNum (-1))])
             sample_library "testing" [1; 2; 3; 4; 5] sample_library
             ltac:(discriminate) ltac:(discriminate) eq_refl
             ltac:(discriminate) ltac:(vm_compute; reflexivity))
             (Some (-1)) eq_refl).
    vm_compute; reflexivity.
  - apply (proj2 (proj2 (searchItems_limit_is_slice_end (H:=memory_host)
             (VObj [("query", VStr "testing");
                    ("limit", VObj [("toString", VNum 1)])])
             sample_library "testing" [1; 2; 3; 4; 5] sample_library
             ltac:(discriminate) ltac:(discriminate) eq_refl
             ltac:(discriminate) ltac:(vm_compute; reflexivity)))).
    reflexivity.
Defined.

(** C2 as stated fails: with three regular matches in the sample library,
    limit 0 returns no item at all (a limit clamped to 1 returns one, the
    default 50 returns three), and limit -1 returns two. *)
Lemma searchItems_limit_not_clamped :
  ∃ (r0 r1 r50 rneg : value),
    (searchItems (VObj [("query", VStr "testing"); ("limit", VNum 0)])
       sample_library).1 = Return r0 ∧
    (searchItems (VObj [("query", VStr "testing"); ("limit", VNum 1)])
       sample_library).1 = Return r1 ∧
    (searchItems (VObj [("query", VStr "testing")]) sample_library).1
      = Return r50 ∧
    (searchItems (VObj [("query", VStr "testing"); ("limit", VNum (-1))])
       sample_library).1 = Return rneg ∧
    get r0 "total" = VNum 0 ∧ get r0 "items" = VArr [] ∧
    get r1 "total" = VNum 1 ∧
    get r50 "total" = VNum 3 ∧
    get rneg "total" = VNum 2 ∧
    r0 ≠ r1 ∧ r0 ≠ r50 ∧ rneg ≠ r1 ∧ rneg ≠ r50.
Proof.
  eexists _, _, _, _.
  repeat (split; [vm_compute; reflexivity|]).
  repeat split; vm_compute; discriminate.
Qed.




(* ===================================================================== *)
(** * Part I, facts: [addToCollection]                                    *)
(* ===================================================================== *)

Section InterleaveFacts.
Context {A : Type}.

Lemma Interleave_length (l a e : list A) :
  Interleave l a e → (length a + length e = length l)%nat.
Proof. induction 1; simpl; lia. Qed.

Lemma Interleave_elem_of (l a e : list A) (x : A) :
  Interleave l a e → (x ∈ l ↔ x ∈ a ∨ x ∈ e).
Proof.
  induction 1 as [|y l a e _ IH|y l a e _ IH].
  - rewrite !elem_of_nil. tauto.
  - rewrite !elem_of_cons, IH. tauto.
  - rewrite !elem_of_cons, IH. tauto.
Qed.

Lemma Interleave_disjoint (l a e : list A) (x : A) :
  Interleave l a e → NoDup l → x ∈ a → x ∈ e → False.
Proof.
  induction 1 as [|y l a e Hil IH|y l a e Hil IH]; intros Hnd Ha He.
  - apply elem_of_nil in Ha. exact Ha.
  - apply NoDup_cons in Hnd as [Hy Hnd].
    apply elem_of_cons in Ha as [->|Ha]; [|auto].
    apply Hy. apply (Interleave_elem_of _ _ _ y Hil). auto.
  - apply NoDup_cons in Hnd as [Hy Hnd].
    apply elem_of_cons in He as [->|He]; [|auto].
    apply Hy. apply (Interleave_elem_of _ _ _ y Hil). auto.
Qed.

End InterleaveFacts.

Section AddFacts.
Context `{Host}.

Lemma error_key_entry (k : value) (m : string) :
  error_key (error_entry k m) = k.
Proof. reflexivity. Qed.

Lemma Run_Interleave (libID : value) (c : Collection) (w : World)
    (keys a e : list value) (w' : World) :
  Run libID c w keys a e w' → Interleave keys a (map error_key e).
Proof.
  induction 1; simpl; rewrite ?error_key_entry; constructor; assumption.
Qed.

(** The loop never throws, and what it appends to the two arrays is a run
    over the keys. *)
Lemma addToCollection_loop_run (libID : value) (c : Collection)
    (keys : list value) :
  ∀ (added errors : list value) (w : World),
  ∃ (a e : list value) (w' : World),
    addToCollection_loop libID c keys added errors w
      = (Return (added ++ a, errors ++ e), w') ∧
    Run libID c w keys a e w'.
Proof.
  induction keys as [|k ks IH]; intros added errors w.
  - exists [], [], w. simpl. rewrite !app_nil_r. split; [reflexivity|constructor].
  - cbn [addToCollection_loop]. rewrite bind_run. unfold try_catch.
    rewrite bind_run, call_run.
    destruct (Items_getByLibraryAndKeyAsync libID k w) as [[[item|]|m] w1] eqn:Hget.
    + destruct (isNote item || isAttachment item) eqn:Hkind.
      * cbn. destruct (IH added (errors ++ [error_entry k "Cannot add notes or attachments directly"]) w1)
          as (a & e & w' & Hloop & Hrun).
        exists a, (error_entry k "Cannot add notes or attachments directly" :: e), w'.
        split.
        -- rewrite Hloop. rewrite <- app_assoc. reflexivity.
        -- eapply Run_note_or_attachment; eassumption.
      * rewrite bind_run, call_run.
        destruct (Collection_addItem c (item_id item) w1) as [[[]|m] w2] eqn:Hadd.
        -- cbn. destruct (IH (added ++ [k]) errors w2) as (a & e & w' & Hloop & Hrun).
           exists (k :: a), e, w'. split.
           ++ rewrite Hloop. rewrite <- app_assoc. reflexivity.
           ++ eapply Run_added; eassumption.
        -- cbn. destruct (IH added (errors ++ [error_entry k m]) w2)
             as (a & e & w' & Hloop & Hrun).
           exists a, (error_entry k m :: e), w'. split.
           ++ rewrite Hloop. rewrite <- app_assoc. reflexivity.
           ++ eapply Run_add_failed; eassumption.
    + cbn. destruct (IH added (errors ++ [error_entry k "Item not found"]) w1)
        as (a & e & w' & Hloop & Hrun).
      exists a, (error_entry k "Item not found" :: e), w'. split.
      * rewrite Hloop. rewrite <- app_assoc. reflexivity.
      * eapply Run_missing; eassumption.
    + cbn. destruct (IH added (errors ++ [error_entry k m]) w1)
        as (a & e & w' & Hloop & Hrun).
      exists a, (error_entry k m :: e), w'. split.
      * rewrite Hloop. rewrite <- app_assoc. reflexivity.
      * eapply Run_lookup_failed; eassumption.
Qed.

End AddFacts.

(** C9.  With a collection that is found and a non-empty [itemKeys], the
    loop of [addToCollection] never throws, and the keys, taken in order,
    are split between [added] and the keys of [errors], each occurrence
    going to exactly one of the two: a key whose lookup finds no item, or
    finds a note or an attachment, or whose lookup or [addItem] throws, gets
    an error entry [{key, error}] and the loop goes on with the next key
    ([Run]).  These are the lists that [addToCollection] returns, [errors]
    as [undefined] when it is empty; it returns whenever [collectionKey]
    can be written into the log line, as every string can.  With no key
    repeated, a key is in [added] or among the error keys and never in
    both. *)
Theorem addToCollection_splits_keys `{Host}
    (p : value) (w : World) (collection : Collection) (w1 : World)
    (k : value) (ks : list value) :
  truthy (get p "collectionKey") = true →
  get p "itemKeys" = VArr (k :: ks) →
  Collections_getByLibraryAndKeyAsync
    (or_else (get p "libraryID") userLibraryID) (get p "collectionKey") w
    = (Done (Some collection), w1) →
  ∃ (added errors : list value) (w' : World),
    addToCollection p w =
    match ToString (get p "collectionKey") with
    | Some _ =>
        (Return (VObj [("collectionKey", get p "collectionKey");
                       ("added", VArr added);
                       ("errors", match errors with
                                  | [] => VUndef
                                  | _ :: _ => VArr errors
                                  end)]), w')
    | None => (Throw conversion_error, w')
    end ∧
    Run (or_else (get p "libraryID") userLibraryID) collection w1
      (k :: ks) added errors w' ∧
    Interleave (k :: ks) added (map error_key errors) ∧
    (length added + length errors = length (k :: ks))%nat ∧
    (NoDup (k :: ks) →
     ∀ x, x ∈ (k :: ks) →
       (x ∈ added ∧ ¬ x ∈ map error_key errors) ∨
       (¬ x ∈ added ∧ x ∈ map error_key errors)).
Proof.
  intros Hkey Hkeys Hcol.
  assert (Hu : p ≠ VUndef) by (intros ->; discriminate Hkey).
  assert (Hn : p ≠ VNull) by (intros ->; discriminate Hkey).
  destruct (addToCollection_loop_run
              (or_else (get p "libraryID") userLibraryID) collection
              (k :: ks) [] [] w1) as (a & e & w' & Hloop & Hrun).
  exists a, e, w'.
  pose proof (Run_Interleave _ _ _ _ _ _ _ Hrun) as Hil.
  split; [|split; [exact Hrun|split; [exact Hil|split]]].
  - unfold addToCollection.
    rewrite bind_run, destructure_run by assumption.
    rewrite Hkey, Hkeys. cbn [negb].
    rewrite bind_run, call_run, Hcol, bind_run, Hloop.
    rewrite bind_run, template_run. cbn [ToString VLen].
    rewrite bind_run, template_run.
    destruct (ToString (get p "collectionKey")); [|reflexivity].
    destruct e; reflexivity.
  - apply Interleave_length in Hil. rewrite length_map in Hil. exact Hil.
  - intros Hnd x Hx.
    apply (Interleave_elem_of _ _ _ x Hil) in Hx as [Ha|He].
    + left. split; [exact Ha|]. intros He.
      exact (Interleave_disjoint _ _ _ x Hil Hnd Ha He).
    + right. split; [|exact He]. intros Ha.
      exact (Interleave_disjoint _ _ _ x Hil Hnd Ha He).
Qed.

Lemma addToCollection_splits_keys_witness :
  ∃ (added errors : list value) (w' : Library),
    addToCollection
      (VObj [("collectionKey", VStr "COLL0001");
             ("itemKeys", VArr [VStr "AAAA1111"; VStr "ZZZZ9999";
                                VStr "CCCC3333"; VStr "BBBB2222"])])
      sample_library =
    (Return (VObj [("collectionKey", VStr "COLL0001");
                   ("added", VArr added);
                   ("errors", match errors with
                              | [] => VUndef
                              | _ :: _ => VArr errors
                              end)]), w') ∧
    Run (VNum 1) sample_collection sample_library
      [VStr "AAAA1111"; VStr "ZZZZ9999"; VStr "CCCC3333"; VStr "BBBB2222"]
      added errors w' ∧
    Interleave
      [VStr "AAAA1111"; VStr "ZZZZ9999"; VStr "CCCC3333"; VStr "BBBB2222"]
      added (map error_key errors) ∧
    (length added + length errors = 4)%nat ∧
    (NoDup [VStr "AAAA1111"; VStr "ZZZZ9999"; VStr "CCCC3333"; VStr "BBBB2222"] →
     ∀ x, x ∈ ([VStr "AAAA1111"; VStr "ZZZZ9999"; VStr "CCCC3333";
               VStr "BBBB2222"] : list value) →
       (x ∈ added ∧ ¬ x ∈ map error_key errors) ∨
       (¬ x ∈ added ∧ x ∈ map error_key errors)).
Proof.
  apply (addToCollection_splits_keys (H:=memory_host)
           (VObj [("collectionKey", VStr "COLL0001");
                  ("itemKeys", VArr [VStr "AAAA1111"; VStr "ZZZZ9999";
                                     VStr "CCCC3333"; VStr "BBBB2222"])])
           sample_library sample_collection sample_library).
  - reflexivity.
  - reflexivity.
  - vm_compute; reflexivity.
Defined.

(** On the sample library the call adds the two papers and reports the
    unknown key and the note, each with its reason. *)
Example addToCollection_on_sample :
  (addToCollection
     (VObj [("collectionKey", VStr "COLL0001");
            ("itemKeys", VArr [VStr "AAAA1111"; VStr "ZZZZ9999";
                               VStr "CCCC3333"; VStr "BBBB2222"])])
     sample_library).1 =
  Return
    (VObj [("collectionKey", VStr "COLL0001");
           ("added", VArr [VStr "AAAA1111"; VStr "BBBB2222"]);
           ("errors",
            VArr [VObj [("key", VStr "ZZZZ9999");
                        ("error", VStr "Item not found")];
                  VObj [("key", VStr "CCCC3333");
                        ("error",
                         VStr "Cannot add notes or attachments directly")]])]).
Proof. vm_compute. reflexivity. Qed.

(* ===================================================================== *)
(** * Part I, facts: [handleRpcRequest]                                   *)
(* ===================================================================== *)

Lemma is_lit_true (v : value) (lit : string) :
  is_lit v lit = true ↔ v = VStr lit.
Proof.
  destruct v as [| |b|n|s|xs|fs]; simpl;
    try (split; [discriminate|intros [=]]).
  rewrite String.eqb_eq. split; [intros ->; reflexivity|intros [= ->]; reflexivity].
Qed.

Ltac throws :=
  repeat throws_step;
  try (unfold not_code, rpcError, conversion_error; simpl; discriminate).

Section DispatchFacts.
Context `{Host}.

Lemma addToCollection_loop_plain libID c keys added errors :
  throws_only (not_code "METHOD_NOT_FOUND") (addToCollection_loop libID c keys added errors).
Proof.
  intros w e w' Hrun.
  destruct (addToCollection_loop_run libID c keys added errors w)
    as (a & e' & w2 & Hloop & _).
  rewrite Hloop in Hrun. discriminate.
Qed.

Lemma removeFromCollection_loop_plain libID c keys :
  ∀ removed errors,
    throws_only (not_code "METHOD_NOT_FOUND") (removeFromCollection_loop libID c keys removed errors).
Proof.
  induction keys as [|k ks IH]; intros removed errors;
    cbn [removeFromCollection_loop].
  - throws.
  - apply throws_only_bind; [|intros acc; apply IH].
    apply throws_only_try_catch. intros e. throws.
Qed.

Lemma createCollection_plain p : throws_only (not_code "METHOD_NOT_FOUND") (createCollection p).
Proof. unfold createCollection. throws. Qed.

Lemma getCollection_plain p : throws_only (not_code "METHOD_NOT_FOUND") (getCollection p).
Proof. unfold getCollection. throws. Qed.

Lemma addToCollection_plain p : throws_only (not_code "METHOD_NOT_FOUND") (addToCollection p).
Proof.
  unfold addToCollection.
  repeat first [apply addToCollection_loop_plain | throws_step];
    try (unfold not_code, rpcError, conversion_error; simpl; discriminate).
Qed.

Lemma removeFromCollection_plain p :
  throws_only (not_code "METHOD_NOT_FOUND") (removeFromCollection p).
Proof.
  unfold removeFromCollection.
  repeat first [apply removeFromCollection_loop_plain | throws_step];
    try (unfold not_code, rpcError, conversion_error; simpl; discriminate).
Qed.

Lemma searchItems_plain p : throws_only (not_code "METHOD_NOT_FOUND") (searchItems p).
Proof. unfold searchItems. throws. Qed.

Lemma getItem_plain p : throws_only (not_code "METHOD_NOT_FOUND") (getItem p).
Proof. unfold getItem. throws. Qed.

Lemma listCollections_plain p : throws_only (not_code "METHOD_NOT_FOUND") (listCollections p).
Proof. unfold listCollections. throws. Qed.

End DispatchFacts.

(** C10, as the code has it.  [handleRpcRequest] throws METHOD_NOT_FOUND,
    with status 404 and before any call into Zotero, exactly when [method]
    is truthy, converts to a string (for the log line and the message) and
    is none of the seven command names.  A truthy [method] whose conversion
    throws (an object with an own [toString], an array that holds one) ends
    in that [TypeError] instead.  A [method] that is missing or falsy (null,
    false, 0 or the empty string, though present) throws INVALID_REQUEST
    with status 400, for every body other than [null]. *)
Theorem handleRpcRequest_method_errors `{Host} (body : value) (w : World) :
  (truthy (get body "method") = true →
   (∀ c, c ∈ commands → get body "method" ≠ VStr c) →
   ∀ s, ToString (get body "method") = Some s →
   handleRpcRequest body w =
   (Throw (RpcError "METHOD_NOT_FOUND" ("Unknown method: " +:+ s) 404), w)) ∧
  (∀ m status w',
     handleRpcRequest body w
       = (Throw (RpcError "METHOD_NOT_FOUND" m status), w') →
     truthy (get body "method") = true ∧
     (∀ c, c ∈ commands → get body "method" ≠ VStr c) ∧
     (∃ s, ToString (get body "method") = Some s ∧
           m = "Unknown method: " +:+ s) ∧
     status = 404 ∧ w' = w) ∧
  (truthy (get body "method") = true →
   ToString (get body "method") = None →
   handleRpcRequest body w = (Throw conversion_error, w)) ∧
  (body ≠ VUndef → body ≠ VNull →
   truthy (get body "method") = false →
   handleRpcRequest body w =
   (Throw (RpcError "INVALID_REQUEST" "Method is required" 400), w)).
Proof.
  assert (Hlits :
    (∀ c, c ∈ commands → get body "method" ≠ VStr c) ↔
    (is_lit (get body "method") "createCollection" = false ∧
     is_lit (get body "method") "getCollection" = false ∧
     is_lit (get body "method") "addToCollection" = false ∧
     is_lit (get body "method") "removeFromCollection" = false ∧
     is_lit (get body "method") "searchItems" = false ∧
     is_lit (get body "method") "getItem" = false ∧
     is_lit (get body "method") "listCollections" = false)).
  { split.
    - intros Hall.
      repeat split;
        (apply not_true_is_false; intros Hlit; apply is_lit_true in Hlit;
         refine (Hall _ _ Hlit); unfold commands; set_solver).
    - intros (H1 & H2 & H3 & H4 & H5 & H6 & H7) c Hc Heq.
      apply is_lit_true in Heq. unfold commands in Hc.
      repeat (apply elem_of_cons in Hc as [->|Hc]; [congruence|]).
      apply elem_of_nil in Hc. exact Hc. }
  split; [|split; [|split]].
  - intros Htruthy Hnone s Hs.
    assert (Hu : body ≠ VUndef) by (intros ->; discriminate Htruthy).
    assert (Hn : body ≠ VNull) by (intros ->; discriminate Htruthy).
    apply Hlits in Hnone as (H1 & H2 & H3 & H4 & H5 & H6 & H7).
    unfold handleRpcRequest.
    rewrite bind_run, destructure_run by assumption.
    rewrite Htruthy. cbn [negb].
    rewrite bind_run, template_run, Hs, bind_run. cbn [Zotero_debug mret M_ret].
    rewrite H1, H2, H3, H4, H5, H6, H7.
    rewrite bind_run, template_run, Hs. reflexivity.
  - intros m status w' Hrun.
    assert (Hu : body ≠ VUndef) by (intros ->; discriminate Hrun).
    assert (Hn : body ≠ VNull) by (intros ->; discriminate Hrun).
    unfold handleRpcRequest in Hrun.
    rewrite bind_run, destructure_run in Hrun by assumption.
    destruct (truthy (get body "method")) eqn:Htruthy; [|discriminate Hrun].
    cbn [negb] in Hrun.
    rewrite bind_run, template_run in Hrun.
    destruct (ToString (get body "method")) as [s|] eqn:Hs;
      [|discriminate Hrun].
    rewrite bind_run in Hrun. cbn [Zotero_debug mret M_ret] in Hrun.
    assert (Hplain : ∀ (c : M World value),
              throws_only (not_code "METHOD_NOT_FOUND") c →
              c w = (Throw (RpcError "METHOD_NOT_FOUND" m status), w') →
              False).
    { intros c Hc Hcw. apply (Hc _ _ _ Hcw). reflexivity. }
    destruct (is_lit (get body "method") "createCollection") eqn:H1;
      [exfalso; exact (Hplain _ (createCollection_plain _) Hrun)|].
    destruct (is_lit (get body "method") "getCollection") eqn:H2;
      [exfalso; exact (Hplain _ (getCollection_plain _) Hrun)|].
    destruct (is_lit (get body "method") "addToCollection") eqn:H3;
      [exfalso; exact (Hplain _ (addToCollection_plain _) Hrun)|].
    destruct (is_lit (get body "method") "removeFromCollection") eqn:H4;
      [exfalso; exact (Hplain _ (removeFromCollection_plain _) Hrun)|].
    destruct (is_lit (get body "method") "searchItems") eqn:H5;
      [exfalso; exact (Hplain _ (searchItems_plain _) Hrun)|].
    destruct (is_lit (get body "method") "getItem") eqn:H6;
      [exfalso; exact (Hplain _ (getItem_plain _) Hrun)|].
    destruct (is_lit (get body "method") "listCollections") eqn:H7;
      [exfalso; exact (Hplain _ (listCollections_plain _) Hrun)|].
    rewrite bind_run, template_run, Hs in Hrun.
    injection Hrun as <- <- <-.
    split; [reflexivity|]. split; [apply Hlits; auto 10|].
    split; [eauto|]. split; reflexivity.
  - intros Htruthy Hs.
    assert (Hu : body ≠ VUndef) by (intros ->; discriminate Htruthy).
    assert (Hn : body ≠ VNull) by (intros ->; discriminate Htruthy).
    unfold handleRpcRequest.
    rewrite bind_run, destructure_run by assumption.
    rewrite Htruthy. cbn [negb].
    rewrite bind_run, template_run, Hs. reflexivity.
  - intros Hu Hn Hfalsy. unfold handleRpcRequest.
    rewrite bind_run, destructure_run by assumption.
    rewrite Hfalsy. reflexivity.
Qed.

Lemma handleRpcRequest_method_errors_witness :
  handleRpcRequest (VObj [("method", VStr "invalidMethod")]) sample_library =
  (Throw (RpcError "METHOD_NOT_FOUND" "Unknown method: invalidMethod" 404),
   sample_library) ∧
  handleRpcRequest (VObj [("method", VObj [("toString", VNum 1)])])
    sample_library = (Throw conversion_error, sample_library) ∧
  handleRpcRequest (VObj [("params", VObj [])]) sample_library =
  (Throw (RpcError "INVALID_REQUEST" "Method is required" 400),
   sample_library).
Proof.
  split; [|split].
  - apply (proj1 (handleRpcRequest_method_errors (H:=memory_host)
                    (VObj [("method", VStr "invalidMethod")]) sample_library)).
    + reflexivity.
    + intros c Hc. unfold commands in Hc.
      repeat (apply elem_of_cons in Hc as [->|Hc]; [discriminate|]).
      apply elem_of_nil in Hc. contradiction.
    + reflexivity.
  - apply (proj1 (proj2 (proj2 (handleRpcRequest_method_errors
                    (H:=memory_host)
                    (VObj [("method", VObj [("toString", VNum 1)])])
                    sample_library)))); reflexivity.
  - apply (proj2 (proj2 (proj2 (handleRpcRequest_method_errors
                    (H:=memory_host)
                    (VObj [("params", VObj [])]) sample_library)))).
    + discriminate.
    + discriminate.
    + reflexivity.
Defined.

(** C10 as stated fails: in the body [{"method": ""}] the field [method] is
    present and is none of the seven commands, and the error thrown is
    INVALID_REQUEST with status 400, not METHOD_NOT_FOUND with 404. *)
Lemma handleRpcRequest_empty_method_is_invalid_request :
  has_field (VObj [("method", VStr "")]) "method" = true ∧
  (∀ c, c ∈ commands → VStr "" ≠ VStr c) ∧
  handleRpcRequest (VObj [("method", VStr "")]) sample_library =
  (Throw (RpcError "INVALID_REQUEST" "Method is required" 400),
   sample_library) ∧
  rpc_response (handleRpcRequest (VObj [("method", VStr "")]) sample_library).1
  = (VNum 400, VObj [("error", VStr "INVALID_REQUEST");
                     ("message", VStr "Method is required")]).
Proof.
  split; [reflexivity|]. split; [|split; reflexivity].
  intros c Hc. unfold commands in Hc.
  repeat (apply elem_of_cons in Hc as [->|Hc]; [discriminate|]).
  apply elem_of_nil in Hc. contradiction.
Qed.

(* ===================================================================== *)
(** * Part I, more facts: the other commands                              *)
(* ===================================================================== *)

Section CommandFacts.
Context `{Host}.


(** X2.  When [createCollection] returns, a collection was saved under the
    given name: without a [parentKey], as a top-level collection and with no
    parent looked up; with one, under the parent that the lookup found (it
    never saves under a parent that is missing).  The answer carries the key
    of the saved collection and [parentKey || null]. *)
Theorem createCollection_saves_under_parent (p : value) (w : World)
    (r : value) (w' : World) :
  createCollection p w = (Return r, w') →
  ∃ (name : string) (parentID : option Z) (w1 : World) (saved : Collection),
    get p "name" = VStr name ∧ name ≠ "" ∧
    (if truthy (get p "parentKey")
     then ∃ parent,
            Collections_getByLibraryAndKeyAsync
              (or_else (get p "libraryID") userLibraryID)
              (get p "parentKey") w = (Done (Some parent), w1) ∧
            parentID = Some (col_id parent)
     else parentID = None ∧ w1 = w) ∧
    Collection_saveTx (or_else (get p "libraryID") userLibraryID)
      (VStr name) parentID w1 = (Done saved, w') ∧
    get r "key" = col_key saved ∧
    get r "parentKey" = or_else (get p "parentKey") VNull.
Proof.
  intros Hrun.
  assert (Hu : p ≠ VUndef) by (intros ->; discriminate Hrun).
  assert (Hn : p ≠ VNull) by (intros ->; discriminate Hrun).
  unfold createCollection in Hrun.
  rewrite bind_run, destructure_run in Hrun by assumption.
  destruct (negb (truthy (get p "name")) || negb (is_string (get p "name")))
    eqn:Hg; [discriminate|].
  apply query_guard in Hg as (name & Hname & Hne).
  rewrite Hname in Hrun. rewrite bind_run in Hrun.
  destruct (truthy (get p "parentKey")) eqn:Hpk.
  - rewrite bind_run, call_run in Hrun.
    destruct (Collections_getByLibraryAndKeyAsync _ _ w)
      as [[[parent|]|e] w1] eqn:Hlook; [| |discriminate].
    2:{ rewrite bind_run, template_run in Hrun.
        destruct (ToString (get p "parentKey")); discriminate. }
    cbn -[template ToString] in Hrun. rewrite bind_run, call_run in Hrun.
    destruct (Collection_saveTx _ _ _ w1) as [[c|e] w2] eqn:Hsave;
      [|discriminate].
    rewrite bind_run, template_run in Hrun. cbn [ToString] in Hrun.
    rewrite bind_run, template_run in Hrun.
    destruct (ToString (col_key c)); [|discriminate].
    cbn -[template ToString] in Hrun. injection Hrun as <- <-.
    exists name, (Some (col_id parent)), w1, c.
    repeat split; eauto.
  - cbn -[template ToString] in Hrun. rewrite bind_run, call_run in Hrun.
    destruct (Collection_saveTx _ _ _ w) as [[c|e] w2] eqn:Hsave;
      [|discriminate].
    rewrite bind_run, template_run in Hrun. cbn [ToString] in Hrun.
    rewrite bind_run, template_run in Hrun.
    destruct (ToString (col_key c)); [|discriminate].
    cbn -[template ToString] in Hrun. injection Hrun as <- <-.
    exists name, None, w, c. repeat split; eauto.
Qed.

(** X3.  When [getCollection] returns, the collection was found, its
    [itemCount] is the number of its child item ids, and [items] holds one
    brief entry per item that Zotero loaded for those ids; the two agree
    when every id was loaded. *)
Theorem getCollection_counts_children (p : value) (w : World)
    (r : value) (w' : World) :
  getCollection p w = (Return r, w') →
  ∃ (found : Collection) (w1 : World) (loaded : list Item),
    truthy (get p "key") = true ∧
    Collections_getByLibraryAndKeyAsync
      (or_else (get p "libraryID") userLibraryID) (get p "key") w
      = (Done (Some found), w1) ∧
    Items_getAsync (getChildItems found) w1 = (Done loaded, w') ∧
    get r "key" = col_key found ∧
    get r "itemCount" = VLen (getChildItems found) ∧
    get r "items" = VArr (map serializeItemBrief loaded) ∧
    (length loaded = length (getChildItems found) →
     get r "itemCount" = VLen loaded).
Proof.
  intros Hrun.
  assert (Hu : p ≠ VUndef) by (intros ->; discriminate Hrun).
  assert (Hn : p ≠ VNull) by (intros ->; discriminate Hrun).
  unfold getCollection in Hrun.
  rewrite bind_run, destructure_run in Hrun by assumption.
  destruct (truthy (get p "key")) eqn:Hkey; [|discriminate].
  cbn [negb] in Hrun. rewrite bind_run, call_run in Hrun.
  destruct (Collections_getByLibraryAndKeyAsync _ _ w)
    as [[[found|]|e] w1] eqn:Hlook; [| |discriminate].
  2:{ rewrite bind_run, template_run in Hrun.
      destruct (ToString (get p "key")); discriminate. }
  rewrite bind_run, call_run in Hrun.
  destruct (Items_getAsync _ w1) as [[loaded|e] w2] eqn:Hload; [|discriminate].
  cbn in Hrun. injection Hrun as <- <-.
  exists found, w1, loaded. repeat split; auto.
  intros Hlen. unfold VLen. rewrite Hlen. reflexivity.
Qed.

(** X4.  [getItem] returns exactly when the key is truthy and the lookup
    finds an item, and then it returns that item serialized, whatever its
    kind: unlike [searchItems] it serves notes and attachments too.  A
    lookup that finds nothing gives NOT_FOUND (404) with the key in the
    message, or, for a key that cannot be converted to a string, the
    [TypeError] of that conversion. *)
Theorem getItem_returns_iff (p : value) (w : World) (r : value) (w' : World) :
  p ≠ VUndef → p ≠ VNull →
  (getItem p w = (Return r, w') ↔
   truthy (get p "key") = true ∧
   ∃ item,
     Items_getByLibraryAndKeyAsync
       (or_else (get p "libraryID") userLibraryID) (get p "key") w
       = (Done (Some item), w') ∧
     r = serializeItem w' item) ∧
  (truthy (get p "key") = true →
   Items_getByLibraryAndKeyAsync
     (or_else (get p "libraryID") userLibraryID) (get p "key") w
     = (Done None, w') →
   getItem p w =
   match ToString (get p "key") with
   | Some s =>
       (Throw (RpcError "NOT_FOUND" ("Item not found: " +:+ s) 404), w')
   | None => (Throw conversion_error, w')
   end).
Proof.
  intros Hu Hn. unfold getItem.
  rewrite bind_run, destructure_run by assumption.
  destruct (truthy (get p "key")) eqn:Hkey; cbn [negb].
  - rewrite bind_run, call_run.
    destruct (Items_getByLibraryAndKeyAsync _ _ w) as [[[item|]|e] w1].
    + cbn. split; [|intros _ [=]]. split.
      * intros [= <- <-]. eauto.
      * intros (_ & item' & [= <- <-] & ->). reflexivity.
    + rewrite bind_run, template_run. split.
      * split.
        -- destruct (ToString (get p "key")); discriminate.
        -- intros (_ & item & [=] & _).
      * intros _ [= <-]. destruct (ToString (get p "key")); reflexivity.
    + split; [|intros _ [=]].
      split; [discriminate|]. intros (_ & item & [=] & _).
  - split; [|discriminate].
    split; [discriminate|]. intros ([=] & _).
Qed.

Lemma RemoveRun_Interleave (libID : value) (c : Collection) (w : World)
    (keys a e : list value) (w' : World) :
  RemoveRun libID c w keys a e w' → Interleave keys a (map error_key e).
Proof.
  induction 1; simpl; rewrite ?error_key_entry; constructor; assumption.
Qed.

Lemma removeFromCollection_loop_run (libID : value) (c : Collection)
    (keys : list value) :
  ∀ (removed errors : list value) (w : World),
  ∃ (a e : list value) (w' : World),
    removeFromCollection_loop libID c keys removed errors w
      = (Return (removed ++ a, errors ++ e), w') ∧
    RemoveRun libID c w keys a e w'.
Proof.
  induction keys as [|k ks IH]; intros removed errors w.
  - exists [], [], w. simpl. rewrite !app_nil_r.
    split; [reflexivity|constructor].
  - cbn [removeFromCollection_loop]. rewrite bind_run. unfold try_catch.
    rewrite bind_run, call_run.
    destruct (Items_getByLibraryAndKeyAsync libID k w)
      as [[[item|]|m] w1] eqn:Hget.
    + rewrite bind_run, call_run.
      destruct (Collection_removeItem c (item_id item) w1)
        as [[[]|m] w2] eqn:Hrem.
      * cbn. destruct (IH (removed ++ [k]) errors w2)
          as (a & e & w' & Hloop & Hrun).
        exists (k :: a), e, w'. split.
        -- rewrite Hloop, <- app_assoc. reflexivity.
        -- eapply RemoveRun_removed; eassumption.
      * cbn. destruct (IH removed (errors ++ [error_entry k m]) w2)
          as (a & e & w' & Hloop & Hrun).
        exists a, (error_entry k m :: e), w'. split.
        -- rewrite Hloop, <- app_assoc. reflexivity.
        -- eapply RemoveRun_remove_failed; eassumption.
    + cbn. destruct (IH removed (errors ++ [error_entry k "Item not found"]) w1)
        as (a & e & w' & Hloop & Hrun).
      exists a, (error_entry k "Item not found" :: e), w'. split.
      * rewrite Hloop, <- app_assoc. reflexivity.
      * eapply RemoveRun_missing; eassumption.
    + cbn. destruct (IH removed (errors ++ [error_entry k m]) w1)
        as (a & e & w' & Hloop & Hrun).
      exists a, (error_entry k m :: e), w'. split.
      * rewrite Hloop, <- app_assoc. reflexivity.
      * eapply RemoveRun_lookup_failed; eassumption.
Qed.

(** X5.  With a collection that is found and a non-empty [itemKeys], the
    loop of [removeFromCollection] never throws, and the keys, in order,
    are split between [removed] and the keys of [errors], each occurrence
    going to exactly one of them ([RemoveRun]): a key whose lookup finds
    nothing, or whose lookup or [removeItem] throws, gets an error entry
    [{key, error}] and the loop goes on; no kind of item is turned away.
    These are the lists the command returns, [errors] as [undefined] when
    it is empty; it returns whenever [collectionKey] can be written into
    the log line, as every string can. *)
Theorem removeFromCollection_splits_keys
    (p : value) (w : World) (found : Collection) (w1 : World)
    (k : value) (ks : list value) :
  truthy (get p "collectionKey") = true →
  get p "itemKeys" = VArr (k :: ks) →
  Collections_getByLibraryAndKeyAsync
    (or_else (get p "libraryID") userLibraryID) (get p "collectionKey") w
    = (Done (Some found), w1) →
  ∃ (removed errors : list value) (w' : World),
    removeFromCollection p w =
    match ToString (get p "collectionKey") with
    | Some _ =>
        (Return (VObj [("collectionKey", get p "collectionKey");
                       ("removed", VArr removed);
                       ("errors", match errors with
                                  | [] => VUndef
                                  | _ :: _ => VArr errors
                                  end)]), w')
    | None => (Throw conversion_error, w')
    end ∧
    RemoveRun (or_else (get p "libraryID") userLibraryID) found w1
      (k :: ks) removed errors w' ∧
    Interleave (k :: ks) removed (map error_key errors) ∧
    (length removed + length errors = length (k :: ks))%nat.
Proof.
  intros Hkey Hkeys Hcol.
  assert (Hu : p ≠ VUndef) by (intros ->; discriminate Hkey).
  assert (Hn : p ≠ VNull) by (intros ->; discriminate Hkey).
  destruct (removeFromCollection_loop_run
              (or_else (get p "libraryID") userLibraryID) found
              (k :: ks) [] [] w1) as (a & e & w' & Hloop & Hrun).
  exists a, e, w'.
  pose proof (RemoveRun_Interleave _ _ _ _ _ _ _ Hrun) as Hil.
  split; [|split; [exact Hrun|split; [exact Hil|]]].
  - unfold removeFromCollection.
    rewrite bind_run, destructure_run by assumption.
    rewrite Hkey, Hkeys. cbn [negb].
    rewrite bind_run, call_run, Hcol, bind_run, Hloop.
    rewrite bind_run, template_run. cbn [ToString VLen].
    rewrite bind_run, template_run.
    destruct (ToString (get p "collectionKey")); [|reflexivity].
    destruct e; reflexivity.
  - apply Interleave_length in Hil. rewrite length_map in Hil. exact Hil.
Qed.


(** X7.  When [listCollections] returns, it lists, in the library's order,
    every collection of the library if no [parentKey] was given, and
    otherwise exactly those whose parent is the collection found under
    [parentKey]; each entry carries the number of child items of its
    collection. *)
Theorem listCollections_lists (p : value) (w : World) (r : value)
    (w' : World) :
  listCollections p w = (Return r, w') →
  ∃ (all listed : list Collection) (w1 : World),
    Collections_getByLibrary (or_else (get p "libraryID") userLibraryID) w
      = (Done all, w1) ∧
    (if truthy (get p "parentKey")
     then ∃ parent,
            Collections_getByLibraryAndKeyAsync
              (or_else (get p "libraryID") userLibraryID)
              (get p "parentKey") w1 = (Done (Some parent), w') ∧
            listed = filter (λ c, col_parentID c = Some (col_id parent)) all
     else listed = all ∧ w' = w1) ∧
    (∃ entries, get r "collections" = VArr entries ∧
       map (λ e, get e "key") entries = map col_key listed ∧
       map (λ e, get e "itemCount") entries
         = map (λ c, VLen (getChildItems c)) listed).
Proof.
  intros Hrun.
  assert (Hu : p ≠ VUndef) by (intros ->; discriminate Hrun).
  assert (Hn : p ≠ VNull) by (intros ->; discriminate Hrun).
  unfold listCollections in Hrun.
  rewrite bind_run, destructure_run in Hrun by assumption.
  rewrite bind_run, call_run in Hrun.
  destruct (Collections_getByLibrary _ w) as [[all|e] w1] eqn:Hall;
    [|discriminate].
  rewrite bind_run in Hrun.
  destruct (truthy (get p "parentKey")) eqn:Hpk.
  - rewrite bind_run, call_run in Hrun.
    destruct (Collections_getByLibraryAndKeyAsync _ _ w1)
      as [[[parent|]|e] w2] eqn:Hlook; [| |discriminate].
    2:{ rewrite bind_run, template_run in Hrun.
        destruct (ToString (get p "parentKey")); discriminate. }
    cbn in Hrun. injection Hrun as <- <-.
    exists all, (filter (λ c, col_parentID c = Some (col_id parent)) all), w1.
    split; [reflexivity|]. split; [eauto|].
    eexists. split; [reflexivity|].
    rewrite !map_map. split; reflexivity.
  - cbn in Hrun. injection Hrun as <- <-.
    exists all, all, w1. split; [reflexivity|]. split; [auto|].
    eexists. split; [reflexivity|].
    rewrite !map_map. split; reflexivity.
Qed.

End CommandFacts.


Lemma createCollection_saves_under_parent_witness :
  ∃ (r : value) (w' : Library),
    createCollection
      (VObj [("name", VStr "Papers"); ("parentKey", VStr "COLL0001")])
      sample_library = (Return r, w') ∧
    get r "key" = VStr "NEWCOLL1" ∧ get r "parentKey" = VStr "COLL0001" ∧
    ∃ (name : string) (parentID : option Z) (w1 : Library) (saved : Collection),
      Collection_saveTx (VNum 1) (VStr name) parentID w1 = (Done saved, w') ∧
      parentID = Some 1.
Proof.
  eexists _, _. split; [vm_compute; reflexivity|].
  destruct (createCollection_saves_under_parent (H:=memory_host)
              (VObj [("name", VStr "Papers"); ("parentKey", VStr "COLL0001")])
              sample_library _ _ ltac:(vm_compute; reflexivity))
    as (name & parentID & w1 & saved & _ & _ & Hparent & Hsave & Hkey & Hpk).
  split; [reflexivity|]. split; [reflexivity|].
  exists name, parentID, w1, saved. split; [exact Hsave|].
  cbn in Hparent. destruct Hparent as (parent & Hlook & ->).
  vm_compute in Hlook. injection Hlook as <- _. reflexivity.
Defined.

Lemma getCollection_counts_children_witness :
  ∃ (r : value) (w' : Library),
    getCollection (VObj [("key", VStr "COLL0001")]) sample_library
      = (Return r, w') ∧
    get r "itemCount" = VNum 0 ∧ get r "items" = VArr [] ∧
    ∃ (found : Collection) (w1 : Library) (loaded : list Item),
      Items_getAsync (getChildItems found) w1 = (Done loaded, w') ∧
      get r "itemCount" = VLen (getChildItems found) ∧
      get r "items" = VArr (map serializeItemBrief loaded).
Proof.
  eexists _, _. split; [vm_compute; reflexivity|].
  split; [reflexivity|]. split; [reflexivity|].
  destruct (getCollection_counts_children (H:=memory_host)
              (VObj [("key", VStr "COLL0001")]) sample_library _ _
              ltac:(vm_compute; reflexivity))
    as (found & w1 & loaded & _ & _ & Hload & _ & Hcount & Hitems & _).
  exists found, w1, loaded. auto.
Defined.

(** The note of the sample library is served by [getItem]. *)
Lemma getItem_returns_iff_witness :
  isNote (sample_item 3 "CCCC3333" "A note on testing" Note) = true ∧
  getItem (VObj [("key", VStr "CCCC3333")]) sample_library =
  (Return (serializeItem sample_library
             (sample_item 3 "CCCC3333" "A note on testing" Note)),
   sample_library) ∧
  getItem (VObj [("key", VStr "ZZZZ9999")]) sample_library =
  (Throw (RpcError "NOT_FOUND" "Item not found: ZZZZ9999" 404), sample_library) ∧
  getItem (VObj [("key", VObj [("toString", VNum 1)])]) sample_library =
  (Throw conversion_error, sample_library).
Proof.
  split; [reflexivity|]. split; [|split].
  - apply (proj1 (getItem_returns_iff (H:=memory_host)
                    (VObj [("key", VStr "CCCC3333")]) sample_library _ _
                    ltac:(discriminate) ltac:(discriminate))).
    split; [reflexivity|]. eexists. split; [vm_compute|]; reflexivity.
  - apply (proj2 (getItem_returns_iff (H:=memory_host)
                    (VObj [("key", VStr "ZZZZ9999")]) sample_library VNull _
                    ltac:(discriminate) ltac:(discriminate))).
    + reflexivity.
    + vm_compute; reflexivity.
  - apply (proj2 (getItem_returns_iff (H:=memory_host)
                    (VObj [("key", VObj [("toString", VNum 1)])])
                    sample_library VNull _
                    ltac:(discriminate) ltac:(discriminate))).
    + reflexivity.
    + vm_compute; reflexivity.
Defined.

Lemma removeFromCollection_splits_keys_witness :
  ∃ (removed errors : list value) (w' : Library),
    removeFromCollection
      (VObj [("collectionKey", VStr "COLL0001");
             ("itemKeys", VArr [VStr "CCCC3333"; VStr "ZZZZ9999"])])
      sample_library =
    (Return (VObj [("collectionKey", VStr "COLL0001");
                   ("removed", VArr removed);
                   ("errors", match errors with
                              | [] => VUndef
                              | _ :: _ => VArr errors
                              end)]), w') ∧
    RemoveRun (VNum 1) sample_collection sample_library
      [VStr "CCCC3333"; VStr "ZZZZ9999"] removed errors w' ∧
    Interleave [VStr "CCCC3333"; VStr "ZZZZ9999"] removed
      (map error_key errors) ∧
    (length removed + length errors = 2)%nat.
Proof.
  apply (removeFromCollection_splits_keys (H:=memory_host)
           (VObj [("collectionKey", VStr "COLL0001");
                  ("itemKeys", VArr [VStr "CCCC3333"; VStr "ZZZZ9999"])])
           sample_library sample_collection sample_library).
  - reflexivity.
  - reflexivity.
  - vm_compute; reflexivity.
Defined.


Lemma listCollections_lists_witness :
  ∃ (r : value) (w' : Library),
    listCollections (VObj []) sample_library = (Return r, w') ∧
    ∃ (all listed : list Collection) (w1 : Library),
      Collections_getByLibrary (VNum 1) sample_library = (Done all, w1) ∧
      listed = all ∧
      ∃ entries, get r "collections" = VArr entries ∧
        map (λ e, get e "key") entries = map col_key listed.
Proof.
  eexists _, _. split; [vm_compute; reflexivity|].
  destruct (listCollections_lists (H:=memory_host) (VObj []) sample_library
              _ _ ltac:(vm_compute; reflexivity))
    as (all & listed & w1 & Hall & Hsel & entries & Hr & Hkeys & _).
  exists all, listed, w1. split; [exact Hall|].
  cbn in Hsel. destruct Hsel as [-> _]. split; [reflexivity|].
  exists entries. auto.
Defined.

(* ===================================================================== *)
(** * Part I, more facts: the dispatcher and the endpoints                *)
(* ===================================================================== *)

Ltac tabled_throws :=
  repeat throws_step;
  try (unfold tabled, rpcError, error_table, conversion_error; simpl;
       solve [exact I | repeat constructor]).

Section TableFacts.
Context `{Host}.

Lemma addToCollection_loop_never_throws libID c keys added errors
    (P : exn → Prop) :
  throws_only P (addToCollection_loop libID c keys added errors).
Proof.
  intros w e w' Hrun.
  destruct (addToCollection_loop_run libID c keys added errors w)
    as (a & e' & w2 & Hloop & _).
  rewrite Hloop in Hrun. discriminate.
Qed.

Lemma removeFromCollection_loop_never_throws libID c keys removed errors
    (P : exn → Prop) :
  throws_only P (removeFromCollection_loop libID c keys removed errors).
Proof.
  intros w e w' Hrun.
  destruct (removeFromCollection_loop_run libID c keys removed errors w)
    as (a & e' & w2 & Hloop & _).
  rewrite Hloop in Hrun. discriminate.
Qed.

Lemma createCollection_tabled p : throws_only tabled (createCollection p).
Proof. unfold createCollection. tabled_throws. Qed.

Lemma getCollection_tabled p : throws_only tabled (getCollection p).
Proof. unfold getCollection. tabled_throws. Qed.

Lemma addToCollection_tabled p : throws_only tabled (addToCollection p).
Proof.
  unfold addToCollection.
  repeat first [apply addToCollection_loop_never_throws | throws_step];
    try (unfold tabled, rpcError, error_table, conversion_error; simpl;
         solve [exact I | repeat constructor]).
Qed.

Lemma removeFromCollection_tabled p :
  throws_only tabled (removeFromCollection p).
Proof.
  unfold removeFromCollection.
  repeat first [apply removeFromCollection_loop_never_throws | throws_step];
    try (unfold tabled, rpcError, error_table, conversion_error; simpl;
         solve [exact I | repeat constructor]).
Qed.

Lemma searchItems_tabled p : throws_only tabled (searchItems p).
Proof. unfold searchItems. tabled_throws. Qed.

Lemma getItem_tabled p : throws_only tabled (getItem p).
Proof. unfold getItem. tabled_throws. Qed.

Lemma listCollections_tabled p : throws_only tabled (listCollections p).
Proof. unfold listCollections. tabled_throws. Qed.

Lemma handleRpcRequest_tabled body : throws_only tabled (handleRpcRequest body).
Proof.
  unfold handleRpcRequest.
  repeat first
    [ apply createCollection_tabled | apply getCollection_tabled
    | apply addToCollection_tabled | apply removeFromCollection_tabled
    | apply searchItems_tabled | apply getItem_tabled
    | apply listCollections_tabled | throws_step ];
    try (unfold tabled, rpcError, error_table, conversion_error; simpl;
         solve [exact I | repeat constructor]).
Qed.

Lemma handleRpcRequest_no_parse_error body :
  throws_only (not_code "PARSE_ERROR") (handleRpcRequest body).
Proof.
  unfold handleRpcRequest, createCollection, getCollection,
    addToCollection, removeFromCollection, searchItems, getItem,
    listCollections.
  repeat first
    [ apply addToCollection_loop_never_throws
    | apply removeFromCollection_loop_never_throws | throws_step ];
    try (unfold not_code, rpcError, conversion_error; simpl; discriminate).
Qed.

(** X8.  Whatever [rpcError] a request ends in carries one of four pairs
    of code and status: INVALID_REQUEST 400, INVALID_PARAMS 400,
    NOT_FOUND 404 or METHOD_NOT_FOUND 404; the default status 500 of
    [rpcError] is never used. *)
Theorem handleRpcRequest_error_table (body : value) (w : World)
    (code m : string) (status : Z) (w' : World) :
  handleRpcRequest body w = (Throw (RpcError code m status), w') →
  (code = "INVALID_REQUEST" ∧ status = 400) ∨
  (code = "INVALID_PARAMS" ∧ status = 400) ∨
  (code = "NOT_FOUND" ∧ status = 404) ∨
  (code = "METHOD_NOT_FOUND" ∧ status = 404).
Proof.
  intros Hrun.
  pose proof (handleRpcRequest_tabled body w _ w' Hrun) as Htab.
  assert (Hnot_parse : code ≠ "PARSE_ERROR").
  { intros ->.
    apply (handleRpcRequest_no_parse_error body w _ w' Hrun). reflexivity. }
  simpl in Htab. unfold error_table in Htab.
  repeat (apply elem_of_cons in Htab as [[= -> ->]|Htab];
          [first [contradiction|tauto]|]).
  apply elem_of_nil in Htab. contradiction.
Qed.

(** X9.  The default [params = {}] applies only to a request that has no
    [params]: such a request is handled as the one with [params: {}].  A
    request with [params: null] for any of the seven commands ends in a
    [TypeError] before any call into Zotero. *)
Theorem handleRpcRequest_params_default (w : World) :
  (∀ body, body ≠ VUndef → body ≠ VNull → get body "params" = VUndef →
     handleRpcRequest body w =
     handleRpcRequest
       (VObj [("method", get body "method"); ("params", VObj [])]) w) ∧
  (∀ c, c ∈ commands →
     ∃ m, handleRpcRequest
            (VObj [("method", VStr c); ("params", VNull)]) w
          = (Throw (TypeError m), w)).
Proof.
  split.
  - intros body Hu Hn Hparams. unfold handleRpcRequest.
    rewrite !bind_run, !destructure_run by (assumption || discriminate).
    rewrite Hparams. reflexivity.
  - intros c Hc. unfold commands in Hc.
    repeat (apply elem_of_cons in Hc as [->|Hc];
            [eexists; reflexivity|]).
    apply elem_of_nil in Hc. contradiction.
Qed.

End TableFacts.

Lemma handleRpcRequest_error_table_witness :
  ("NOT_FOUND" = "INVALID_REQUEST" ∧ 404 = 400) ∨
  ("NOT_FOUND" = "INVALID_PARAMS" ∧ 404 = 400) ∨
  ("NOT_FOUND" = "NOT_FOUND" ∧ 404 = 404) ∨
  ("NOT_FOUND" = "METHOD_NOT_FOUND" ∧ 404 = 404).
Proof.
  apply (handleRpcRequest_error_table (H:=memory_host)
           (VObj [("method", VStr "getItem");
                  ("params", VObj [("key", VStr "ZZZZ9999")])])
           sample_library "NOT_FOUND" "Item not found: ZZZZ9999" 404
           sample_library).
  vm_compute; reflexivity.
Defined.

Lemma handleRpcRequest_params_default_witness :
  handleRpcRequest (VObj [("method", VStr "listCollections")]) sample_library =
  handleRpcRequest
    (VObj [("method", VStr "listCollections"); ("params", VObj [])])
    sample_library.
Proof.
  apply (proj1 (handleRpcRequest_params_default (H:=memory_host)
                  sample_library)
           (VObj [("method", VStr "listCollections")]));
    [discriminate|discriminate|reflexivity].
Defined.

Section DispatchMore.
Context `{Host}.

Lemma or_else_falsy (a b : value) : truthy a = false → or_else a b = b.
Proof. unfold or_else. intros ->. reflexivity. Qed.

(** X10.  Every command reads a falsy [libraryID] (absent, null, 0) as
    the user's library: two parameter objects that differ only in
    [libraryID], both falsy, are handled alike by each of the seven. *)
Theorem falsy_libraryID_is_user_library (p p' : value) (w : World) :
  p ≠ VUndef → p ≠ VNull → p' ≠ VUndef → p' ≠ VNull →
  (∀ k, k ≠ "libraryID" → get p k = get p' k) →
  truthy (get p "libraryID") = false →
  truthy (get p' "libraryID") = false →
  createCollection p w = createCollection p' w ∧
  getCollection p w = getCollection p' w ∧
  addToCollection p w = addToCollection p' w ∧
  removeFromCollection p w = removeFromCollection p' w ∧
  searchItems p w = searchItems p' w ∧
  getItem p w = getItem p' w ∧
  listCollections p w = listCollections p' w.
Proof.
  intros Hu Hn Hu' Hn' Hsame Hlib Hlib'.
  unfold createCollection, getCollection, addToCollection,
    removeFromCollection, searchItems, getItem, listCollections.
  rewrite !bind_run, !destructure_run by assumption.
  rewrite !(or_else_falsy _ _ Hlib), !(or_else_falsy _ _ Hlib').
  rewrite (Hsame "name"), (Hsame "parentKey"), (Hsame "key"),
    (Hsame "collectionKey"), (Hsame "itemKeys"), (Hsame "query"),
    (Hsame "limit") by discriminate.
  repeat split; reflexivity.
Qed.

(** X11.  A request whose [method] is the name of a command is handled by
    that command, on the request's [params], or on [{}] when it has none. *)
Theorem handleRpcRequest_dispatch (body : value) (w : World) :
  let params := with_default (get body "params") (VObj []) in
  (get body "method" = VStr "createCollection" →
   handleRpcRequest body w = createCollection params w) ∧
  (get body "method" = VStr "getCollection" →
   handleRpcRequest body w = getCollection params w) ∧
  (get body "method" = VStr "addToCollection" →
   handleRpcRequest body w = addToCollection params w) ∧
  (get body "method" = VStr "removeFromCollection" →
   handleRpcRequest body w = removeFromCollection params w) ∧
  (get body "method" = VStr "searchItems" →
   handleRpcRequest body w = searchItems params w) ∧
  (get body "method" = VStr "getItem" →
   handleRpcRequest body w = getItem params w) ∧
  (get body "method" = VStr "listCollections" →
   handleRpcRequest body w = listCollections params w).
Proof.
  intros params.
  repeat split; intros Hm;
    (assert (Hu : body ≠ VUndef) by (intros ->; discriminate Hm));
    (assert (Hn : body ≠ VNull) by (intros ->; discriminate Hm));
    unfold handleRpcRequest;
    rewrite bind_run, destructure_run by assumption;
    rewrite Hm; reflexivity.
Qed.

End DispatchMore.

Lemma falsy_libraryID_is_user_library_witness :
  searchItems (VObj [("query", VStr "testing"); ("libraryID", VNum 0)])
    sample_library =
  searchItems (VObj [("query", VStr "testing")]) sample_library.
Proof.
  apply (falsy_libraryID_is_user_library (H:=memory_host)
           (VObj [("query", VStr "testing"); ("libraryID", VNum 0)])
           (VObj [("query", VStr "testing")]) sample_library);
    try discriminate; try reflexivity.
  intros k Hk. simpl.
  destruct (String.eqb_spec k "query") as [->|Hq]; [reflexivity|].
  destruct (String.eqb_spec k "libraryID") as [->|Hl]; [contradiction|].
  reflexivity.
Defined.

Section EndpointFacts.
Context `{Host} `{Runtime}.

Lemma parseRequestBody_tabled rd : throws_only tabled (parseRequestBody rd).
Proof. unfold parseRequestBody. tabled_throws. Qed.

(** The status [error.status || 500] of an error of the table. *)
Lemma tabled_status (e : exn) :
  tabled e →
  or_else (exn_status e) (VNum 500) ∈ [VNum 400; VNum 404; VNum 500].
Proof.
  destruct e as [code m status|m|m]; simpl; intros Htab.
  - unfold error_table in Htab.
    repeat (apply elem_of_cons in Htab as [[= -> ->]|Htab];
            [vm_compute; solve [repeat constructor]|]).
    apply elem_of_nil in Htab. contradiction.
  - vm_compute; repeat constructor.
  - vm_compute; repeat constructor.
Qed.

(** What [init] of the RPC endpoint does with a request that is not a
    preflight. *)
Lemma rpc_init_run (rd : RequestData) (w : World) :
  is_lit (req_method rd) "OPTIONS" = false →
  rpc_init rd w =
  match (parseRequestBody rd ≫= handleRpcRequest) w with
  | (Return result, w') => (Return (jsonResponse (VNum 200) result), w')
  | (Throw error, w') =>
      (Return (jsonResponse (or_else (exn_status error) (VNum 500))
                 (VObj [("error",
                         or_else (exn_code error) (VStr "INTERNAL_ERROR"));
                        ("message", VStr (exn_message error))])), w')
  end.
Proof.
  intros Hopt. unfold rpc_init, try_catch. rewrite Hopt, !bind_run.
  destruct (parseRequestBody rd w) as [[body|e] w1]; [|reflexivity].
  rewrite bind_run.
  destruct (handleRpcRequest body w1) as [[result|e] w2]; reflexivity.
Qed.

(** X12.  Both endpoints always answer: [init] never throws, whatever the
    request and whatever Zotero does; every answer carries the three CORS
    headers; the status of the RPC endpoint is one of 200, 204, 400, 404
    and 500, that of the health endpoint 200 or 204; and a preflight
    (OPTIONS) is answered with 204 and an empty body without parsing the
    request or calling Zotero. *)
Theorem endpoints_always_answer (rd : RequestData) (w : World) :
  (∃ resp w',
     rpc_init rd w = (Return resp, w') ∧
     res_headers resp = cors_headers ∧
     res_status resp ∈ [VNum 200; VNum 204; VNum 400; VNum 404; VNum 500] ∧
     (is_lit (req_method rd) "OPTIONS" = true →
      resp = corsResponse (VNum 204) "" ∧ w' = w)) ∧
  (∃ resp,
     health_init rd w = (Return resp, w) ∧
     res_headers resp = cors_headers ∧
     res_status resp ∈ [VNum 200; VNum 204] ∧
     (is_lit (req_method rd) "OPTIONS" = true →
      resp = corsResponse (VNum 204) "")).
Proof.
  split.
  - destruct (is_lit (req_method rd) "OPTIONS") eqn:Hopt.
    + exists (corsResponse (VNum 204) ""), w. unfold rpc_init. rewrite Hopt.
      repeat split. repeat constructor.
    + rewrite (rpc_init_run rd w Hopt).
      destruct ((parseRequestBody rd ≫= handleRpcRequest) w)
        as [[result|e] w1] eqn:Hrun.
      * eexists _, w1. split; [reflexivity|]. split; [reflexivity|].
        split; [simpl; repeat constructor|discriminate].
      * eexists _, w1. split; [reflexivity|]. split; [reflexivity|].
        split; [|discriminate]. simpl.
        assert (Htab : tabled e).
        { refine (throws_only_bind tabled _ _ _ _ w e w1 Hrun).
          - apply parseRequestBody_tabled.
          - intros body. apply handleRpcRequest_tabled. }
        apply tabled_status in Htab.
        repeat (apply elem_of_cons in Htab as [->|Htab];
                [solve [repeat constructor]|]).
        apply elem_of_nil in Htab. contradiction.
  - unfold health_init.
    destruct (is_lit (req_method rd) "OPTIONS").
    + eexists. split; [reflexivity|]. split; [reflexivity|].
      split; [simpl; repeat constructor|auto].
    + eexists. split; [reflexivity|]. split; [reflexivity|].
      split; [simpl; repeat constructor|discriminate].
Qed.

(** X13.  For a request that is not a preflight, the RPC endpoint answers
    200 exactly when the body is there, parses, and [handleRpcRequest]
    returns a result for it; the answer is then that result, stringified. *)
Theorem rpc_init_ok_iff (rd : RequestData) (w : World) (resp : Response)
    (w' : World) :
  is_lit (req_method rd) "OPTIONS" = false →
  rpc_init rd w = (Return resp, w') →
  (res_status resp = VNum 200 ↔
   ∃ body result,
     truthy (req_data rd) = true ∧
     JSON_parse (req_data rd) = Some body ∧
     handleRpcRequest body w = (Return result, w') ∧
     resp = jsonResponse (VNum 200) result).
Proof.
  intros Hopt Hrun. rewrite (rpc_init_run rd w Hopt) in Hrun.
  rewrite bind_run in Hrun. unfold parseRequestBody in Hrun.
  destruct (truthy (req_data rd)) eqn:Hdata; cbn [negb] in Hrun.
  - destruct (JSON_parse (req_data rd)) as [body|] eqn:Hparse.
    + cbn in Hrun.
      destruct (handleRpcRequest body w) as [[result|e] w1] eqn:Hh.
      * injection Hrun as <- <-. split; [|reflexivity].
        intros _. exists body, result. auto.
      * injection Hrun as <- <-. split.
        -- simpl. intros Hst. exfalso.
           assert (Htab : tabled e)
             by exact (handleRpcRequest_tabled body w e w1 Hh).
           apply tabled_status in Htab. rewrite Hst in Htab.
           repeat (apply elem_of_cons in Htab as [Hx|Htab];
                   [discriminate Hx|]).
           apply elem_of_nil in Htab. exact Htab.
        -- intros (body' & result & _ & [= <-] & Hr & _).
           rewrite Hh in Hr. discriminate Hr.
    + cbn in Hrun. injection Hrun as <- <-. split.
      * simpl. vm_compute. discriminate.
      * intros (body & result & _ & [=] & _).
  - cbn in Hrun. injection Hrun as <- <-. split.
    + simpl. vm_compute. discriminate.
    + intros (body & result & [=] & _).
Qed.

(** X14.  A request that is not a preflight and has no body, or a body
    that does not parse, is answered 400 (INVALID_REQUEST, PARSE_ERROR)
    without any call into Zotero; an error that is not an [rpcError], a
    [TypeError] or an error thrown by Zotero, is answered 500 with the code
    INTERNAL_ERROR and the error's own message. *)
Theorem rpc_init_error_answers (rd : RequestData) (w : World) :
  is_lit (req_method rd) "OPTIONS" = false →
  (truthy (req_data rd) = false →
   rpc_init rd w =
   (Return (jsonResponse (VNum 400)
              (VObj [("error", VStr "INVALID_REQUEST");
                     ("message", VStr "Request body is required")])), w)) ∧
  (truthy (req_data rd) = true → JSON_parse (req_data rd) = None →
   rpc_init rd w =
   (Return (jsonResponse (VNum 400)
              (VObj [("error", VStr "PARSE_ERROR");
                     ("message", VStr "Invalid JSON in request body")])), w)) ∧
  (∀ body e w',
     truthy (req_data rd) = true → JSON_parse (req_data rd) = Some body →
     handleRpcRequest body w = (Throw e, w') →
     exn_code e = VUndef →
     rpc_init rd w =
     (Return (jsonResponse (VNum 500)
                (VObj [("error", VStr "INTERNAL_ERROR");
                       ("message", VStr (exn_message e))])), w')).
Proof.
  intros Hopt. rewrite (rpc_init_run rd w Hopt), bind_run.
  unfold parseRequestBody. split; [|split].
  - intros ->. reflexivity.
  - intros -> ->. reflexivity.
  - intros body e w' -> -> Hh Hcode. cbn. rewrite Hh.
    destruct e as [code m status|m|m]; [discriminate Hcode|reflexivity..].
Qed.

End EndpointFacts.

Lemma rpc_init_ok_iff_witness :
  ∃ (resp : Response) (w' : Library),
    rpc_init {| req_method := VStr "POST"; req_data := VStr list_request |}
      sample_library = (Return resp, w') ∧
    res_status resp = VNum 200 ∧
    ∃ body result,
      truthy (VStr list_request) = true ∧
      JSON_parse (VStr list_request) = Some body ∧
      handleRpcRequest body sample_library = (Return result, w') ∧
      resp = jsonResponse (VNum 200) result.
Proof.
  eexists _, _. split; [vm_compute; reflexivity|].
  split; [reflexivity|].
  apply (rpc_init_ok_iff (H:=memory_host) (H0:=sample_runtime)
           {| req_method := VStr "POST"; req_data := VStr list_request |}
           sample_library _ _ eq_refl ltac:(vm_compute; reflexivity)).
  reflexivity.
Defined.

Lemma rpc_init_error_answers_witness :
  rpc_init {| req_method := VStr "POST"; req_data := VStr "" |} sample_library =
  (Return (jsonResponse (VNum 400)
             (VObj [("error", VStr "INVALID_REQUEST");
                    ("message", VStr "Request body is required")])),
   sample_library) ∧
  rpc_init {| req_method := VStr "POST"; req_data := VStr "{oops" |}
    sample_library =
  (Return (jsonResponse (VNum 400)
             (VObj [("error", VStr "PARSE_ERROR");
                    ("message", VStr "Invalid JSON in request body")])),
   sample_library) ∧
  rpc_init {| req_method := VStr "POST"; req_data := VStr "null" |}
    sample_library =
  (Return (jsonResponse (VNum 500)
             (VObj [("error", VStr "INTERNAL_ERROR");
                    ("message",
                     VStr "cannot destructure null or undefined")])),
   sample_library).
Proof.
  split; [|split].
  - apply (proj1 (rpc_init_error_answers (H:=memory_host) (H0:=sample_runtime)
                    {| req_method := VStr "POST"; req_data := VStr "" |}
                    sample_library eq_refl)).
    reflexivity.
  - apply (proj1 (proj2 (rpc_init_error_answers
                    (H:=memory_host) (H0:=sample_runtime)
                    {| req_method := VStr "POST"; req_data := VStr "{oops" |}
                    sample_library eq_refl))); reflexivity.
  - apply (proj2 (proj2 (rpc_init_error_answers
                    (H:=memory_host) (H0:=sample_runtime)
                    {| req_method := VStr "POST"; req_data := VStr "null" |}
                    sample_library eq_refl))
             VNull (TypeError "cannot destructure null or undefined"));
      reflexivity.
Defined.

(* ===================================================================== *)
(** * Part I, more facts: registration and the bootstrap                  *)
(* ===================================================================== *)

Section RegistryFacts.
Context `{Host} `{Runtime}.

Lemma lookup_foldl_delete (paths : list string) :
  ∀ (server : gmap string Endpoint) (k : string),
    foldl (λ s path, delete path s) server paths !! k =
    if decide (k ∈ paths) then None else server !! k.
Proof.
  induction paths as [|p paths IH]; intros server k; simpl.
  - destruct (decide (k ∈ [])) as [Hin|_]; [|reflexivity].
    apply elem_of_nil in Hin. contradiction.
  - rewrite IH.
    destruct (decide (k ∈ paths)) as [Hin|Hout].
    + rewrite decide_True by (apply elem_of_cons; auto). reflexivity.
    + destruct (decide (k = p)) as [->|Hne].
      * rewrite decide_True by (apply elem_of_cons; auto).
        apply lookup_delete_eq.
      * rewrite decide_False
          by (intros [Heq|Hin]%elem_of_cons; contradiction).
        apply lookup_delete_ne. congruence.
Qed.

Lemma startup_installs (r : Registry) :
  Server_Endpoints (startup r) !! "/zotero-mcp/rpc" = Some rpc_endpoint ∧
  Server_Endpoints (startup r) !! "/zotero-mcp/health" = Some health_endpoint.
Proof.
  unfold startup, registerEndpoints, registerEndpoint. simpl. split.
  - rewrite lookup_insert_ne by discriminate. apply lookup_insert_eq.
  - apply lookup_insert_eq.
Qed.

Lemma shutdown_startup_fresh (server : gmap string Endpoint) :
  server !! "/zotero-mcp/rpc" = None →
  server !! "/zotero-mcp/health" = None →
  shutdown (startup (new_plugin server)) = new_plugin server.
Proof.
  intros Hrpc Hhealth.
  unfold shutdown, unregisterEndpoints, startup, registerEndpoints,
    registerEndpoint, new_plugin. simpl. f_equal.
  apply map_eq. intros k.
  destruct (decide (k = "/zotero-mcp/health")) as [->|Hh].
  { rewrite lookup_delete_eq. symmetry. exact Hhealth. }
  rewrite lookup_delete_ne by congruence.
  destruct (decide (k = "/zotero-mcp/rpc")) as [->|Hr].
  { rewrite lookup_delete_eq. symmetry. exact Hrpc. }
  rewrite lookup_delete_ne, !lookup_insert_ne by congruence. reflexivity.
Qed.

(** X15.  After [startup] and then [shutdown], the plugin's list of
    endpoints is empty and the server holds no endpoint under a path the
    plugin had registered, the two of [startup] and any it held before:
    an endpoint that was there under one of these paths before [startup]
    is not put back.  Every other endpoint of the server is as it was. *)
Theorem shutdown_after_startup (r : Registry) (path : string) :
  endpoints (shutdown (startup r)) = [] ∧
  Server_Endpoints (shutdown (startup r)) !! path =
  if decide (path ∈ endpoints r ++ ["/zotero-mcp/rpc"; "/zotero-mcp/health"])
  then None
  else Server_Endpoints r !! path.
Proof.
  split; [reflexivity|].
  unfold shutdown, unregisterEndpoints, startup, registerEndpoints,
    registerEndpoint. simpl.
  rewrite lookup_foldl_delete, <- app_assoc. simpl.
  destruct (decide (path ∈ endpoints r ++ ["/zotero-mcp/rpc";
                                           "/zotero-mcp/health"]))
    as [Hin|Hout]; [reflexivity|].
  rewrite !lookup_insert_ne; [reflexivity|..].
  - intros <-. apply Hout, elem_of_app. right. repeat constructor.
  - intros <-. apply Hout, elem_of_app. right. repeat constructor.
Qed.

(** X16.  For a plugin that has registered nothing yet and a server with
    no endpoint under the plugin's two paths, [shutdown] undoes [startup]:
    the plugin and the server's endpoints are back as they were. *)
Theorem shutdown_undoes_startup (r : Registry) :
  endpoints r = [] →
  Server_Endpoints r !! "/zotero-mcp/rpc" = None →
  Server_Endpoints r !! "/zotero-mcp/health" = None →
  shutdown (startup r) = r.
Proof.
  destruct r as [eps server]. simpl. intros -> Hrpc Hhealth.
  exact (shutdown_startup_fresh server Hrpc Hhealth).
Qed.

(** X17.  A second [startup] installs the same two endpoints again: the
    server's endpoints are the same as after the first, with the RPC and
    the health handler under their paths, while the plugin's list records
    the two paths a second time. *)
Theorem startup_twice (r : Registry) :
  Server_Endpoints (startup (startup r)) = Server_Endpoints (startup r) ∧
  Server_Endpoints (startup r) !! "/zotero-mcp/rpc" = Some rpc_endpoint ∧
  Server_Endpoints (startup r) !! "/zotero-mcp/health" = Some health_endpoint ∧
  endpoints (startup (startup r)) =
  endpoints r ++ ["/zotero-mcp/rpc"; "/zotero-mcp/health";
                  "/zotero-mcp/rpc"; "/zotero-mcp/health"].
Proof.
  unfold startup, registerEndpoints, registerEndpoint. simpl.
  split; [|split; [|split]].
  - apply map_eq. intros k.
    destruct (decide (k = "/zotero-mcp/health")) as [->|Hh].
    { rewrite !lookup_insert_eq. reflexivity. }
    destruct (decide (k = "/zotero-mcp/rpc")) as [->|Hr].
    { rewrite !(lookup_insert_ne _ "/zotero-mcp/health") by discriminate.
      rewrite !lookup_insert_eq. reflexivity. }
    rewrite !lookup_insert_ne by congruence. reflexivity.
  - apply (startup_installs r).
  - apply (startup_installs r).
  - rewrite <- !app_assoc. reflexivity.
Qed.

(** X18.  The bootstrap: [shutdown] without a started plugin changes
    nothing, so a second [shutdown] changes nothing either; [startup]
    installs the two endpoints; and on a server without endpoints under the
    plugin's paths, [startup] followed by [shutdown] leaves the server's
    endpoints as they were and the global unset. *)
Theorem bootstrap_lifecycle (b : Bootstrap) :
  (ZoteroMcpBridge b = None → bootstrap_shutdown b = b) ∧
  bootstrap_shutdown (bootstrap_shutdown b) = bootstrap_shutdown b ∧
  ZoteroMcpBridge (bootstrap_startup b)
    = Some ["/zotero-mcp/rpc"; "/zotero-mcp/health"] ∧
  boot_server (bootstrap_startup b) !! "/zotero-mcp/rpc" = Some rpc_endpoint ∧
  boot_server (bootstrap_startup b) !! "/zotero-mcp/health"
    = Some health_endpoint ∧
  (boot_server b !! "/zotero-mcp/rpc" = None →
   boot_server b !! "/zotero-mcp/health" = None →
   bootstrap_shutdown (bootstrap_startup b) =
   {| ZoteroMcpBridge := None; boot_server := boot_server b |}).
Proof.
  split; [|split; [|split; [|split; [|split]]]].
  - intros Hnone. unfold bootstrap_shutdown. rewrite Hnone. reflexivity.
  - unfold bootstrap_shutdown.
    destruct (ZoteroMcpBridge b) as [eps|] eqn:Hb; simpl; [reflexivity|].
    rewrite Hb. reflexivity.
  - reflexivity.
  - apply (startup_installs (new_plugin (boot_server b))).
  - apply (startup_installs (new_plugin (boot_server b))).
  - intros Hrpc Hhealth. unfold bootstrap_shutdown, bootstrap_startup.
    cbn [ZoteroMcpBridge boot_server].
    assert (Hback :
      shutdown {| endpoints := endpoints (startup (new_plugin (boot_server b)));
                  Server_Endpoints :=
                    Server_Endpoints (startup (new_plugin (boot_server b))) |}
      = new_plugin (boot_server b)).
    { exact (shutdown_startup_fresh (boot_server b) Hrpc Hhealth). }
    rewrite Hback. reflexivity.
Qed.

End RegistryFacts.

Lemma shutdown_undoes_startup_witness :
  shutdown (startup (new_plugin (H:=memory_host) ∅))
  = new_plugin (H:=memory_host) ∅.
Proof.
  apply (shutdown_undoes_startup (H:=memory_host) (H0:=sample_runtime)
           (new_plugin ∅)).
  - reflexivity.
  - apply lookup_empty.
  - apply lookup_empty.
Defined.

(* ===================================================================== *)
(** * Part I, more facts: serialization                                   *)
(* ===================================================================== *)

(** X19.  In a serialized item, [collections] holds only keys of
    collections that exist: an id of the item for which Zotero has no
    collection is dropped (as is a collection with an empty key), so every
    entry is the truthy key of a collection among the item's ids, and there
    are at most as many entries as ids. *)
Theorem serializeItem_collections `{Host} (w : World) (item : Item) :
  ∃ keys : list value,
    get (serializeItem w item) "collections" = VArr keys ∧
    Forall (λ k, truthy k = true ∧
                 ∃ colID col, colID ∈ getCollections item ∧
                              Collections_get w colID = Some col ∧
                              col_key col = k) keys ∧
    (length keys ≤ length (getCollections item))%nat.
Proof.
  eexists. split; [reflexivity|]. split.
  - apply Forall_forall. intros k Hk.
    apply list_elem_of_filter in Hk as [Htruthy Hk].
    split; [exact Htruthy|].
    apply list_elem_of_fmap in Hk as (colID & Hkey & Hin).
    destruct (Collections_get w colID) as [col|] eqn:Hcol.
    + exists colID, col. auto.
    + subst k. discriminate Htruthy.
  - etransitivity; [apply length_filter|]. rewrite length_map. reflexivity.
Qed.

(* ===================================================================== *)
(** * The build script, facts                                             *)
(* ===================================================================== *)

Lemma DirEntry_induction (P : DirEntry → Prop) :
  (∀ name, P (FileEntry name)) →
  (∀ name entries, Forall P entries → P (DirectoryEntry name entries)) →
  ∀ entry, P entry.
Proof.
  intros Hfile Hdir. fix IH 1. intros [name|name entries].
  - apply Hfile.
  - apply Hdir. induction entries as [|e es IHes]; constructor.
    + apply IH.
    + exact IHes.
Qed.

Lemma append_assoc (a b c : string) : (a +:+ b) +:+ c = a +:+ (b +:+ c).
Proof.
  induction a as [|x a IH]; [reflexivity|].
  change (String x ((a +:+ b) +:+ c) = String x (a +:+ (b +:+ c))).
  f_equal. exact IH.
Qed.

(** Every file of the tree is added, once. *)
Lemma addEntryToZip_length (entry : DirEntry) :
  ∀ dirPath zipPath,
    length (addEntryToZip entry dirPath zipPath) = count_files entry.
Proof.
  induction entry as [name|name entries IH] using DirEntry_induction;
    intros dirPath zipPath; [reflexivity|].
  cbn [addEntryToZip count_files].
  generalize (path_join dirPath name)
    (if String.eqb zipPath "" then name else zipPath +:+ "/" +:+ name).
  intros d z.
  induction IH as [|e es He _ IHes]; [reflexivity|].
  rewrite length_app, He, IHes. reflexivity.
Qed.

(** Below a folder of the archive, the calls follow the tree: each file is
    read from its directory below [dirPath] and stored in the folder of
    that directory below [zipPath]. *)
Lemma addEntryToZip_below (entry : DirEntry) :
  ∀ dirPath zipPath,
    zipPath ≠ "" →
    addEntryToZip entry dirPath zipPath =
    map (λ df, (path_join (foldl path_join dirPath df.1) df.2,
                Some (foldl (λ folder name, folder +:+ "/" +:+ name)
                        zipPath df.1)))
      (files_of entry).
Proof.
  induction entry as [name|name entries IH] using DirEntry_induction;
    intros dirPath zipPath Hz.
  - simpl. apply String.eqb_neq in Hz. rewrite Hz. reflexivity.
  - cbn [addEntryToZip files_of].
    assert (Hz' : zipPath +:+ "/" +:+ name ≠ "")
      by (destruct zipPath; discriminate).
    apply String.eqb_neq in Hz. rewrite Hz. clear Hz.
    rewrite map_map. cbn [fst snd foldl].
    revert Hz'.
    generalize (path_join dirPath name) (zipPath +:+ "/" +:+ name).
    intros d z Hz'.
    induction IH as [|e es He _ IHes]; [reflexivity|].
    rewrite map_app, He, IHes by exact Hz'. reflexivity.
Qed.

(** At the top of the archive, where there is no folder yet. *)
Lemma addEntryToZip_top (entry : DirEntry) (root : string) :
  well_named entry = true →
  addEntryToZip entry root "" = map (mirror_call root) (files_of entry).
Proof.
  destruct entry as [name|name entries]; intros Hnamed; [reflexivity|].
  cbn [well_named] in Hnamed. apply andb_true_iff in Hnamed as [Hname _].
  apply negb_true_iff, String.eqb_neq in Hname.
  cbn [addEntryToZip files_of]. rewrite map_map.
  change (String.eqb "" "") with true. cbv iota.
  unfold mirror_call, folder_of. cbn [fst snd foldl].
  generalize (path_join root name). intros d.
  induction entries as [|e es IHes]; [reflexivity|].
  rewrite map_app, (addEntryToZip_below e d name Hname), IHes. reflexivity.
Qed.

(** Below a folder of the archive every file is given a folder. *)
Lemma addEntryToZip_folder (entry : DirEntry) :
  ∀ dirPath zipPath call,
    zipPath ≠ "" → call ∈ addEntryToZip entry dirPath zipPath →
    call.2 ≠ None.
Proof.
  induction entry as [name|name entries IH] using DirEntry_induction;
    intros dirPath zipPath call Hz Hcall.
  - simpl in Hcall. apply list_elem_of_singleton in Hcall. subst call.
    simpl. apply String.eqb_neq in Hz. rewrite Hz. discriminate.
  - cbn [addEntryToZip] in Hcall.
    assert (Hz' : (if String.eqb zipPath "" then name
                   else zipPath +:+ "/" +:+ name) ≠ "").
    { apply String.eqb_neq in Hz. rewrite Hz. destruct zipPath; discriminate. }
    revert Hcall.
    generalize (path_join dirPath name)
      (if String.eqb zipPath "" then name else zipPath +:+ "/" +:+ name) Hz'.
    intros d z Hz'' Hcall.
    induction IH as [|e es He _ IHes].
    + apply elem_of_nil in Hcall. contradiction.
    + apply elem_of_app in Hcall as [Hcall|Hcall]; eauto.
Qed.

(** So is every file of a named directory, wherever the directory is. *)
Lemma addEntryToZip_directory_folder (name : string) (entries : list DirEntry)
    (dirPath zipPath : string) (call : string * option string) :
  name ≠ "" →
  call ∈ addEntryToZip (DirectoryEntry name entries) dirPath zipPath →
  call.2 ≠ None.
Proof.
  intros Hname Hcall. cbn [addEntryToZip] in Hcall.
  assert (Hz : (if String.eqb zipPath "" then name
                else zipPath +:+ "/" +:+ name) ≠ "").
  { destruct (String.eqb zipPath "") eqn:Hz; [exact Hname|].
    destruct zipPath; discriminate. }
  revert Hcall.
  generalize (path_join dirPath name)
    (if String.eqb zipPath "" then name else zipPath +:+ "/" +:+ name) Hz.
  intros d z Hz' Hcall.
  induction entries as [|e es IHes].
  - apply elem_of_nil in Hcall. contradiction.
  - apply elem_of_app in Hcall as [Hcall|Hcall]; [|auto].
    exact (addEntryToZip_folder e d z call Hz' Hcall).
Qed.

(** X20.  [addDirectoryToZip(addonDir)] mirrors the tree: its calls of
    [zip.addLocalFile] are, in the order of the listing, one for each file
    of the tree and nothing else, each reading the file from its place
    below [addonDir] and storing it in the folder named by the path of its
    directory relative to [addonDir] (no folder, [undefined], for a file
    directly in [addonDir]).  So every file is added once, and a directory
    without files, at any depth, leaves no trace in the archive. *)
Theorem addDirectoryToZip_mirrors_tree (entries : list DirEntry)
    (addonDir : string) :
  forallb well_named entries = true →
  addDirectoryToZip entries addonDir ""
  = map (mirror_call addonDir) (flat_map files_of entries) ∧
  length (addDirectoryToZip entries addonDir "")
  = list_sum (map count_files entries) ∧
  (∀ e, e ∈ entries → count_files e = 0%nat →
        addEntryToZip e addonDir "" = []) ∧
  (∀ call, call ∈ addDirectoryToZip entries addonDir "" →
     call.2 = None ↔ ∃ name, FileEntry name ∈ entries ∧
                             call = (path_join addonDir name, None)).
Proof.
  intros Hnamed. unfold addDirectoryToZip.
  split; [|split; [|split]].
  - induction entries as [|e es IH]; simpl; [reflexivity|].
    simpl in Hnamed. apply andb_true_iff in Hnamed as [Hn1 Hn2].
    rewrite map_app, (addEntryToZip_top e addonDir Hn1), (IH Hn2).
    reflexivity.
  - clear Hnamed. induction entries as [|e es IH]; simpl; [reflexivity|].
    rewrite length_app, IH, addEntryToZip_length. reflexivity.
  - intros e _ Hzero.
    apply length_zero_iff_nil. rewrite addEntryToZip_length. exact Hzero.
  - intros call Hcall. split.
    + intros Hnone.
      induction entries as [|e es IH]; simpl in Hcall.
      { apply elem_of_nil in Hcall. contradiction. }
      simpl in Hnamed. apply andb_true_iff in Hnamed as [Hn1 Hn2].
      apply elem_of_app in Hcall as [Hcall|Hcall].
      * destruct e as [name|name sub].
        -- simpl in Hcall. apply list_elem_of_singleton in Hcall.
           exists name. split; [constructor|exact Hcall].
        -- exfalso. cbn [well_named] in Hn1.
           apply andb_true_iff in Hn1 as [Hname _].
           apply negb_true_iff, String.eqb_neq in Hname.
           exact (addEntryToZip_directory_folder name sub addonDir ""
                    call Hname Hcall Hnone).
      * destruct (IH Hn2 Hcall) as (name & Hin & Heq).
        exists name. split; [right; exact Hin|exact Heq].
    + intros (name & _ & ->). reflexivity.
Qed.

Lemma addDirectoryToZip_mirrors_tree_witness :
  addDirectoryToZip sample_addon "/src/addon" "" =
  [("/src/addon/manifest.json", None);
   ("/src/addon/bootstrap.js", None);
   ("/src/addon/content/zotero-mcp.js", Some "content");
   ("/src/addon/content/icons/icon.svg", Some "content/icons")] ∧
  length (addDirectoryToZip sample_addon "/src/addon" "")
  = list_sum (map count_files sample_addon) ∧
  addEntryToZip (DirectoryEntry "empty" [DirectoryEntry "deeper" []])
    "/src/addon" "" = [].
Proof.
  destruct (addDirectoryToZip_mirrors_tree sample_addon "/src/addon" eq_refl)
    as (Hm & Hlen & _).
  split; [exact Hm|]. split; [exact Hlen|].
  destruct (addDirectoryToZip_mirrors_tree
              [DirectoryEntry "empty" [DirectoryEntry "deeper" []]]
              "/src/addon" eq_refl) as (_ & _ & Hempty & _).
  apply Hempty; [constructor|reflexivity].
Defined.

(* ===================================================================== *)
(** * Part II, facts                                                      *)
(* ===================================================================== *)

Module EngineFacts.
Import Engine.

(** ** Rationals as booleans decide them *)

Lemma Qlt_b_true (a b : Q) : Qlt_b a b = true ↔ (a < b)%Q.
Proof.
  unfold Qlt_b. rewrite negb_true_iff. split.
  - intros Hb. apply Qnot_le_lt. intros Hle.
    apply Qle_bool_iff in Hle. congruence.
  - intros Hlt. apply not_true_is_false. intros Hb.
    apply Qle_bool_iff in Hb. lra.
Qed.

Lemma Qlt_b_false (a b : Q) : Qlt_b a b = false ↔ (b <= a)%Q.
Proof.
  unfold Qlt_b. rewrite negb_false_iff. apply Qle_bool_iff.
Qed.

Lemma ratio_nonneg (n d : nat) : (0 <= ratio n d)%Q.
Proof.
  destruct d as [|d]; simpl; [lra|].
  unfold Qle. simpl. lia.
Qed.

Lemma ratio_le_1 (n d : nat) : (n ≤ d)%nat → (ratio n d <= 1)%Q.
Proof.
  intros Hle. destruct d as [|d]; simpl; [lra|].
  unfold Qle. simpl. lia.
Qed.

Lemma similarity_bounds (coef : Coefficient) (a b : string) :
  (0 <= similarity coef a b <= 1)%Q.
Proof.
  unfold similarity. destruct coef; (split; [apply ratio_nonneg|]);
    apply ratio_le_1.
  - assert (Ha : trigrams a ∩ trigrams b ⊆ trigrams a)
      by apply intersection_subseteq_l.
    assert (Hb : trigrams a ∩ trigrams b ⊆ trigrams b)
      by apply intersection_subseteq_r.
    apply subseteq_size in Ha, Hb. lia.
  - apply subseteq_size.
    transitivity (trigrams a);
      [apply intersection_subseteq_l|apply union_subseteq_l].
Qed.

Lemma Qmax_b_bounds (a b : Q) :
  (0 <= a <= 1)%Q → (0 <= b <= 1)%Q → (0 <= Qmax_b a b <= 1)%Q.
Proof. intros Ha Hb. unfold Qmax_b. destruct (Qle_bool a b); assumption. Qed.

(** Accents fold away, and what is left splits on what is no letter or
    digit. *)
Example terms_of_folds_diacritics :
  terms_of "Café Müller-Ångström, naïve" =
  ["cafe"; "muller"; "angstrom"; "naive"].
Proof. vm_compute. reflexivity. Qed.

(** The typo of section 8: Smoth matches the last name Smith by its
    trigrams alone, half of them shared, above the threshold and below
    every substring match. *)
Example smoth_matches_smith :
  (similarity Dice "smoth" "smith" == 1 # 2)%Q ∧
  matchSignal example_config "smoth" "John Smith" = Some (Fuzzy, (150 # 12)%Q) ∧
  (150 # 12 < base example_config Substring)%Q.
Proof. repeat split. Qed.

Lemma best_similarity_bounds (coef : Coefficient) (term text : string) :
  (0 <= best_similarity coef term text <= 1)%Q.
Proof.
  unfold best_similarity.
  induction (words_of text) as [|w ws IH]; simpl; [lra|].
  apply Qmax_b_bounds; [apply similarity_bounds|exact IH].
Qed.

(** ** What [config_ok] says *)

Lemma config_ok_Ordered (cfg : Config) : config_ok cfg = true → Ordered cfg.
Proof.
  unfold config_ok. rewrite !andb_true_iff, !Qlt_b_true, Qle_bool_iff.
  intros (((((((H1 & H2) & H3) & H4) & H5) & H6) & H7) & H8).
  split; try assumption.
  intros f. rewrite forallb_forall in H8. apply Qlt_b_true, H8.
  unfold all_fields. destruct f; simpl; tauto.
Qed.

(** The score of the fuzzy signal, when it applies, lies in
    (0, base Fuzzy]. *)
Lemma fuzzy_score_bounds (cfg : Config) (term text : string) :
  Ordered cfg →
  Qle_bool (fuzzy_threshold cfg)
    (best_similarity (coefficient cfg) term text) = true →
  (0 < base cfg Fuzzy * best_similarity (coefficient cfg) term text
     <= base cfg Fuzzy)%Q.
Proof.
  intros Hord Hthr. apply Qle_bool_iff in Hthr.
  pose proof (best_similarity_bounds (coefficient cfg) term text) as [_ Hle].
  pose proof (fuzzy_above cfg Hord) as Hf.
  pose proof (threshold_pos cfg Hord) as Ht.
  set (s := best_similarity (coefficient cfg) term text) in *.
  split; nra.
Qed.


(** Take the members of a literal list one by one. *)
Ltac each_member H :=
  repeat (apply elem_of_cons in H as [H|H];
          [try discriminate H; injection H as ?; subst; lra|]);
  apply elem_of_nil in H; contradiction.

(** C4.  With constants as the spec orders them, the matcher gives a
    (term, field text) pair the score of one signal, the first of the tiers
    Exact, WordBoundary, Substring, Fuzzy that applies, and that score is
    the greatest among the signals that apply: nothing is summed, so with
    two or more signals applying the score stays below their sum.  The base
    scores are strictly ordered Exact > WordBoundary > Substring > Fuzzy > 0,
    and a fuzzy score, the base scaled by the similarity, is positive and
    strictly below the Substring score. *)
Theorem strongest_signal_only (cfg : Config) (term text : string) :
  config_ok cfg = true →
  (base cfg Exact > base cfg WordBoundary ∧
   base cfg WordBoundary > base cfg Substring ∧
   base cfg Substring > base cfg Fuzzy ∧
   base cfg Fuzzy > 0)%Q ∧
  match matchSignal cfg term text with
  | None =>
      applicable cfg term text = [] ∧ signalScore cfg term text = 0%Q
  | Some (s, x) =>
      (s, x) ∈ applicable cfg term text ∧ signalScore cfg term text = x ∧
      x = match s with
          | Fuzzy =>
              (base cfg Fuzzy * best_similarity (coefficient cfg) term text)%Q
          | _ => base cfg s
          end
  end ∧
  (∀ s x, (s, x) ∈ applicable cfg term text →
          (0 < x ∧ x <= signalScore cfg term text)%Q) ∧
  (∀ x, (Fuzzy, x) ∈ applicable cfg term text →
        (0 < x ∧ x < base cfg Substring)%Q) ∧
  ((2 ≤ length (applicable cfg term text))%nat →
   (signalScore cfg term text < Qsum (map snd (applicable cfg term text)))%Q).
Proof.
  intros Hok. apply config_ok_Ordered in Hok as Hord.
  destruct Hord as [He Hw Hs Hf Ht Ht1 Hb Hwt].
  split; [auto|].
  assert (Hfz := fuzzy_score_bounds cfg term text (config_ok_Ordered cfg Hok)).
  unfold signalScore, matchSignal, applicable.
  set (sim := best_similarity (coefficient cfg) term text) in *.
  destruct (Qle_bool (fuzzy_threshold cfg) sim);
    [specialize (Hfz eq_refl)|clear Hfz];
    destruct (is_exact term text), (is_word_boundary term text),
      (is_substring term text);
    simpl;
    (split; [first [split; reflexivity
                   |split; [constructor|split; reflexivity]]|]);
    (split; [intros s x Hin; each_member Hin|]);
    (split; [intros x Hin; each_member Hin|]);
    intros Hlen; simpl in Hlen; try lia; lra.
Qed.

Lemma strongest_signal_only_witness :
  (base example_config Exact > base example_config WordBoundary ∧
   base example_config WordBoundary > base example_config Substring ∧
   base example_config Substring > base example_config Fuzzy ∧
   base example_config Fuzzy > 0)%Q ∧
  match matchSignal example_config "neural" "Neural Radiance" with
  | None =>
      applicable example_config "neural" "Neural Radiance" = [] ∧
      signalScore example_config "neural" "Neural Radiance" = 0%Q
  | Some (s, x) =>
      (s, x) ∈ applicable example_config "neural" "Neural Radiance" ∧
      signalScore example_config "neural" "Neural Radiance" = x ∧
      x = match s with
          | Fuzzy =>
              (base example_config Fuzzy *
               best_similarity (coefficient example_config)
                 "neural" "Neural Radiance")%Q
          | _ => base example_config s
          end
  end ∧
  (∀ s x, (s, x) ∈ applicable example_config "neural" "Neural Radiance" →
          (0 < x ∧ x <= signalScore example_config "neural" "Neural Radiance")%Q) ∧
  (∀ x, (Fuzzy, x) ∈ applicable example_config "neural" "Neural Radiance" →
        (0 < x ∧ x < base example_config Substring)%Q) ∧
  ((2 ≤ length (applicable example_config "neural" "Neural Radiance"))%nat →
   (signalScore example_config "neural" "Neural Radiance"
    < Qsum (map snd (applicable example_config "neural" "Neural Radiance")))%Q).
Proof.
  apply (strongest_signal_only example_config "neural" "Neural Radiance").
  vm_compute; reflexivity.
Defined.


(** ** Sums of contributions *)

Lemma signalScore_nonneg (cfg : Config) (term text : string) :
  Ordered cfg → (0 <= signalScore cfg term text)%Q.
Proof.
  intros Hord.
  assert (Hfz := fuzzy_score_bounds cfg term text Hord).
  destruct Hord as [He Hw Hs Hf Ht Ht1 Hb Hwt].
  unfold signalScore, matchSignal, applicable.
  destruct (Qle_bool (fuzzy_threshold cfg)
              (best_similarity (coefficient cfg) term text));
    [specialize (Hfz eq_refl)|clear Hfz];
    destruct (is_exact term text), (is_word_boundary term text),
      (is_substring term text); simpl; lra.
Qed.

Lemma Qsum_nonneg (xs : list Q) :
  Forall (λ x, (0 <= x)%Q) xs → (0 <= Qsum xs)%Q.
Proof. induction 1; simpl; lra. Qed.

Lemma Qsum_pos (xs : list Q) :
  Forall (λ x, (0 <= x)%Q) xs → Exists (λ x, (0 < x)%Q) xs → (0 < Qsum xs)%Q.
Proof.
  intros Hall Hex. induction Hall as [|x xs Hx Hall IH]; simpl.
  - inversion Hex.
  - pose proof (Qsum_nonneg xs Hall).
    inversion Hex; subst; [lra|]. specialize (IH ltac:(assumption)). lra.
Qed.

Lemma Qsum_zero (xs : list Q) :
  Forall (λ x, (x == 0)%Q) xs → (Qsum xs == 0)%Q.
Proof. induction 1; simpl; lra. Qed.

Lemma contribution_nonneg (cfg : Config) (fields : list (FieldName * string))
    (term : string) :
  Ordered cfg → (0 <= contribution cfg fields term)%Q.
Proof.
  intros Hord. unfold contribution. apply Qsum_nonneg.
  apply Forall_forall. intros x Hx.
  apply list_elem_of_fmap in Hx as (ft & -> & _).
  pose proof (signalScore_nonneg cfg term ft.2 Hord).
  pose proof (weight_pos cfg Hord ft.1). nra.
Qed.

Lemma raw_score_nonneg (cfg : Config) (fields : list (FieldName * string))
    (terms : list string) :
  Ordered cfg → (0 <= raw_score cfg fields terms)%Q.
Proof.
  intros Hord. unfold raw_score. apply Qsum_nonneg.
  apply Forall_forall. intros x Hx.
  apply list_elem_of_fmap in Hx as (t & -> & _).
  apply contribution_nonneg, Hord.
Qed.

Lemma all_terms_matched_Forall (cfg : Config)
    (fields : list (FieldName * string)) (terms : list string) :
  all_terms_matched cfg fields terms = true ↔
  Forall (λ t, (0 < contribution cfg fields t)%Q) terms.
Proof.
  unfold all_terms_matched. rewrite forallb_forall, Forall_forall.
  split; intros Hall t Ht.
  - apply Qlt_b_true, Hall, list_elem_of_In, Ht.
  - apply Qlt_b_true, Hall, list_elem_of_In, Ht.
Qed.

(** A raw score is positive exactly when some term contributed. *)
Lemma raw_score_pos (cfg : Config) (fields : list (FieldName * string))
    (terms : list string) :
  Ordered cfg →
  ((0 < raw_score cfg fields terms)%Q ↔
   Exists (λ t, (0 < contribution cfg fields t)%Q) terms).
Proof.
  intros Hord. split.
  - intros Hpos.
    destruct (decide (Exists (λ t, Qlt_b 0 (contribution cfg fields t) = true)
                        terms)) as [Hex|Hno].
    + eapply Exists_impl; [exact Hex|]. intros t. apply Qlt_b_true.
    + exfalso. apply not_Exists_Forall in Hno; [|intros t; apply _].
      assert (Hzero : (raw_score cfg fields terms == 0)%Q).
      { unfold raw_score. apply Qsum_zero.
        apply Forall_forall. intros x Hx.
        apply list_elem_of_fmap in Hx as (t & -> & Ht).
        rewrite Forall_forall in Hno. specialize (Hno t Ht). simpl in Hno.
        apply not_true_is_false, Qlt_b_false in Hno.
        pose proof (contribution_nonneg cfg fields t Hord). lra. }
      lra.
  - intros Hex. unfold raw_score. apply Qsum_pos.
    + apply Forall_forall. intros x Hx.
      apply list_elem_of_fmap in Hx as (t & -> & _).
      apply contribution_nonneg, Hord.
    + apply Exists_exists in Hex as (t & Ht & Hpos).
      apply Exists_exists. exists (contribution cfg fields t).
      split; [|exact Hpos]. apply list_elem_of_fmap. eauto.
Qed.

Lemma item_score_pos (cfg : Config) (fields : list (FieldName * string))
    (terms : list string) :
  Ordered cfg →
  ((0 < item_score cfg fields terms)%Q ↔
   Exists (λ t, (0 < contribution cfg fields t)%Q) terms).
Proof.
  intros Hord. rewrite <- (raw_score_pos cfg fields terms Hord).
  pose proof (bonus_above_1 cfg Hord).
  pose proof (raw_score_nonneg cfg fields terms Hord).
  unfold item_score. destruct (all_terms_matched cfg fields terms);
    [|reflexivity].
  split; intros; nra.
Qed.


(** What a search emits: scored candidates that survived. *)
Lemma search_emits (cfg : Config) (store : Store)
    (cache : gmap string (option string)) (text : string) (limit : option Z)
    (candidates : list LibraryItem) (out : SearchOutput)
    (cache' : gmap string (option string)) :
  search cfg store cache text limit candidates = Some (out, cache') →
  ∃ terms, tokenize text = Some terms ∧
    ∀ r, r ∈ items out →
      Qlt_b 0 (score r) = true ∧
      ∃ c k, c ∈ candidates ∧ r = score_item cfg terms c k.
Proof.
  unfold search. destruct (tokenize text) as [terms|]; [|discriminate].
  destruct (resolve_all store cache candidates) as [citekeys cache1].
  intros [= <- <-]. exists terms. split; [reflexivity|].
  simpl. intros r Hr.
  apply (subseteq_take _ _ r) in Hr.
  unfold rank in Hr. rewrite merge_sort_Permutation in Hr.
  apply list_elem_of_filter in Hr as [Hpos Hr].
  split; [exact Hpos|].
  apply elem_of_zip_with in Hr as (c & k & -> & Hc & _). eauto.
Qed.

(** C5.  For a query of two terms or more: when every term contributed,
    the item's score is the AND-bonus times its raw score, which is more
    than the raw score; when some term contributed nothing, the score is the
    raw score, no bonus; when no term contributed, the score is zero and the
    item does not survive.  And whatever a search emits has a positive
    score and is a candidate to which some term of the query contributed. *)
Theorem and_bonus_when_all_terms_match (cfg : Config) (terms : list string)
    (it : LibraryItem) (citekey : option string) :
  config_ok cfg = true → (2 ≤ length terms)%nat →
  (Forall (λ t, (0 < contribution cfg (extract_fields it citekey) t)%Q) terms →
   item_score cfg (extract_fields it citekey) terms
   = (and_bonus cfg * raw_score cfg (extract_fields it citekey) terms)%Q ∧
   (raw_score cfg (extract_fields it citekey) terms
    < item_score cfg (extract_fields it citekey) terms)%Q) ∧
  (Exists (λ t, (contribution cfg (extract_fields it citekey) t == 0)%Q) terms →
   item_score cfg (extract_fields it citekey) terms
   = raw_score cfg (extract_fields it citekey) terms) ∧
  (Forall (λ t, (contribution cfg (extract_fields it citekey) t == 0)%Q) terms →
   (score (score_item cfg terms it citekey) == 0)%Q ∧
   survivors [score_item cfg terms it citekey] = []) ∧
  (∀ store cache text limit candidates out cache',
     tokenize text = Some terms →
     search cfg store cache text limit candidates = Some (out, cache') →
     ∀ r, r ∈ items out →
       (0 < score r)%Q ∧
       ∃ c k, c ∈ candidates ∧ r = score_item cfg terms c k ∧
              Exists (λ t, (0 < contribution cfg (extract_fields c k) t)%Q)
                terms).
Proof.
  intros Hok Hlen. apply config_ok_Ordered in Hok as Hord.
  set (fields := extract_fields it citekey).
  split; [|split; [|split]].
  - intros Hall.
    assert (Hm : all_terms_matched cfg fields terms = true)
      by (apply all_terms_matched_Forall; exact Hall).
    unfold item_score. rewrite Hm. split; [reflexivity|].
    assert (Hraw : (0 < raw_score cfg fields terms)%Q).
    { apply raw_score_pos; [exact Hord|].
      destruct Hall as [|t ts Ht _]; [simpl in Hlen; lia|].
      apply Exists_cons_hd. exact Ht. }
    pose proof (bonus_above_1 cfg Hord). nra.
  - intros Hex.
    assert (Hm : all_terms_matched cfg fields terms = false).
    { apply not_true_is_false. intros Hm.
      apply all_terms_matched_Forall in Hm.
      apply Exists_exists in Hex as (t & Ht & Hzero).
      rewrite Forall_forall in Hm. specialize (Hm t Ht). simpl in Hm. lra. }
    unfold item_score. rewrite Hm. reflexivity.
  - intros Hnone.
    assert (Hzero : (item_score cfg fields terms <= 0)%Q).
    { apply Qnot_lt_le. intros Hpos.
      apply item_score_pos in Hpos; [|exact Hord].
      apply Exists_exists in Hpos as (t & Ht & Hpos).
      rewrite Forall_forall in Hnone. specialize (Hnone t Ht).
      simpl in Hnone. lra. }
    assert (Hnn : (0 <= item_score cfg fields terms)%Q).
    { unfold item_score.
      pose proof (raw_score_nonneg cfg fields terms Hord).
      pose proof (bonus_above_1 cfg Hord).
      destruct (all_terms_matched cfg fields terms); nra. }
    split.
    + simpl. fold fields. lra.
    + unfold survivors. rewrite filter_cons, filter_nil.
      destruct (decide _) as [Hpos|]; [|reflexivity].
      simpl in Hpos. fold fields in Hpos. apply Qlt_b_true in Hpos. lra.
  - intros store cache text limit candidates out cache' Htok Hsearch r Hr.
    apply search_emits in Hsearch as (terms' & Htok' & Hemit).
    rewrite Htok in Htok'. injection Htok' as <-.
    destruct (Hemit r Hr) as (Hpos & c & k & Hc & ->).
    apply Qlt_b_true in Hpos. split; [exact Hpos|].
    exists c, k. split; [exact Hc|]. split; [reflexivity|].
    apply item_score_pos in Hpos; [exact Hpos|exact Hord].
Qed.


Lemma and_bonus_when_all_terms_match_witness :
  item_score example_config (extract_fields nerf (Some "ABC123"))
    ["neural"; "radiance"]
  = (and_bonus example_config *
     raw_score example_config (extract_fields nerf (Some "ABC123"))
       ["neural"; "radiance"])%Q ∧
  (raw_score example_config (extract_fields nerf (Some "ABC123"))
     ["neural"; "radiance"]
   < item_score example_config (extract_fields nerf (Some "ABC123"))
       ["neural"; "radiance"])%Q.
Proof.
  apply (and_bonus_when_all_terms_match example_config
           ["neural"; "radiance"] nerf (Some "ABC123")).
  - vm_compute; reflexivity.
  - simpl; lia.
  - repeat constructor; vm_compute; reflexivity.
Defined.

(** Under section 4.4 a candidate that matches one term of two is kept,
    with its raw score and no bonus: "radiance" is a word of the title of
    [gauss] (75 times the title weight 3) and "neural" is not in it. *)
Example one_term_of_two_is_kept :
  match search example_config example_store ∅ "neural radiance" None [gauss]
  with
  | Some (out, _) =>
      total out = 1%nat ∧
      map (λ r, (key (item r), Qeq_bool (score r) 225)) (items out)
        = [("GAUS0002", true)] ∧
      all_terms_matched example_config
        (extract_fields gauss (lookup_sources example_store gauss))
        ["neural"; "radiance"] = false
  | None => False
  end.
Proof. vm_compute. repeat split; reflexivity. Qed.

(** ** The citation-key cache *)

Section Resolver.
Variable store : Store.
Variable universe : list LibraryItem.
Hypothesis universe_keyed : keyed universe.

(** One resolution from a sound cache: the answer is what the sources
    say, the cache stays sound, holds the answer, and loses nothing. *)
Lemma resolve_sound (cache : gmap string (option string)) (it : LibraryItem) :
  it ∈ universe → cache_sound store universe cache →
  ∃ cache',
    resolve store cache it = (lookup_sources store it, cache') ∧
    cache_sound store universe cache' ∧
    cache' !! key it = Some (lookup_sources store it) ∧
    (∀ k v, cache !! k = Some v → cache' !! k = Some v).
Proof.
  intros Hin Hsound. unfold resolve.
  destruct (cache !! key it) as [cached|] eqn:Hhit.
  - exists cache. rewrite (Hsound it cached Hin Hhit). repeat split; auto.
    rewrite Hhit. f_equal. apply (Hsound it cached Hin Hhit).
  - exists (<[key it := lookup_sources store it]> cache).
    assert (Hstep :
      match extra it ≫= parse_extra with
      | Some k => (Some k, <[key it := Some k]> cache)
      | None =>
          match lookupKey store (key it) with
          | Some k => (Some k, <[key it := Some k]> cache)
          | None => (None, <[key it := None]> cache)
          end
      end = (lookup_sources store it,
             <[key it := lookup_sources store it]> cache)).
    { unfold lookup_sources. destruct (extra it ≫= parse_extra); [reflexivity|].
      destruct (lookupKey store (key it)); reflexivity. }
    split; [exact Hstep|]. split; [|split].
    + intros it2 cached Hin2 Hlook.
      destruct (decide (key it = key it2)) as [Heq|Hne].
      * rewrite Heq, lookup_insert_eq in Hlook. injection Hlook as <-.
        rewrite (universe_keyed it it2 Hin Hin2 Heq). reflexivity.
      * rewrite lookup_insert_ne in Hlook by exact Hne.
        exact (Hsound it2 cached Hin2 Hlook).
    + apply lookup_insert_eq.
    + intros k v Hk. rewrite lookup_insert_ne; [exact Hk|].
      intros <-. congruence.
Qed.

Lemma resolve_all_sound (its : list LibraryItem) :
  ∀ cache : gmap string (option string),
  (∀ it, it ∈ its → it ∈ universe) → cache_sound store universe cache →
  ∃ cache',
    resolve_all store cache its = (map (lookup_sources store) its, cache') ∧
    cache_sound store universe cache' ∧
    (∀ it, it ∈ its → cache' !! key it = Some (lookup_sources store it)) ∧
    (∀ k v, cache !! k = Some v → cache' !! k = Some v).
Proof.
  induction its as [|it its IH]; intros cache Hsub Hsound.
  - exists cache. repeat split; auto. intros it Hin.
    apply elem_of_nil in Hin. contradiction.
  - destruct (resolve_sound cache it) as (c1 & Hres & Hs1 & Hhit1 & Hmono1);
      [apply Hsub; constructor|exact Hsound|].
    destruct (IH c1) as (c2 & Hall & Hs2 & Hhit2 & Hmono2);
      [intros x Hx; apply Hsub; constructor; exact Hx|exact Hs1|].
    exists c2. simpl. rewrite Hres, Hall. repeat split; auto.
    intros x Hx. apply elem_of_cons in Hx as [->|Hx]; auto.
Qed.

End Resolver.

Lemma cache_sound_empty (store : Store) (its : list LibraryItem) :
  cache_sound store its ∅.
Proof. intros it cached _ Hlook. rewrite lookup_empty in Hlook. discriminate. Qed.

(** C6.  In a process that starts with an empty cache and resolves the
    items one after the other, every answer is what the sources say with
    "extra" before the store: an item whose "extra" holds a key resolves to
    that key whatever the store maps it to, and the cache records it.  After
    that the item is not resolved again: any later resolution for its key
    answers from the cache, without reading "extra" or the store, and
    leaves the cache as it is.  On a cache that has no entry for the item,
    one resolution answers the key of "extra" and stores it. *)
Theorem extra_key_first_and_memoized (store : Store)
    (its : list LibraryItem) :
  keyed its →
  ∃ cache',
    resolve_all store ∅ its = (map (lookup_sources store) its, cache') ∧
    (∀ it k, it ∈ its → extra it ≫= parse_extra = Some k →
       lookup_sources store it = Some k ∧
       cache' !! key it = Some (Some k)) ∧
    (∀ it, it ∈ its →
       ∀ (store' : Store) (it' : LibraryItem), key it' = key it →
         resolve store' cache' it' = (lookup_sources store it, cache')) ∧
    (∀ (cache : gmap string (option string)) it k,
       cache !! key it = None → extra it ≫= parse_extra = Some k →
       resolve store cache it = (Some k, <[key it := Some k]> cache)).
Proof.
  intros Hkeyed.
  destruct (resolve_all_sound store its Hkeyed its ∅)
    as (cache' & Hall & Hsound & Hhit & _);
    [auto|apply cache_sound_empty|].
  exists cache'. split; [exact Hall|]. split; [|split].
  - intros it k Hin Hextra.
    assert (Hsrc : lookup_sources store it = Some k)
      by (unfold lookup_sources; rewrite Hextra; reflexivity).
    split; [exact Hsrc|]. rewrite <- Hsrc. apply Hhit, Hin.
  - intros it Hin store' it' Hkey. unfold resolve.
    rewrite Hkey, (Hhit it Hin). reflexivity.
  - intros cache it k Hfresh Hextra. unfold resolve.
    rewrite Hfresh, Hextra. reflexivity.
Qed.

Lemma example_keyed : keyed [nerf; gauss; survey; nerf].
Proof.
  intros a b Ha Hb Hkey.
  repeat (apply elem_of_cons in Ha as [->|Ha]);
    try (apply elem_of_nil in Ha; contradiction);
    repeat (apply elem_of_cons in Hb as [->|Hb]);
    try (apply elem_of_nil in Hb; contradiction);
    first [reflexivity|discriminate Hkey].
Qed.


Lemma extra_key_first_and_memoized_witness :
  ∃ cache',
    resolve_all example_store ∅ [nerf; gauss; survey; nerf]
      = (map (lookup_sources example_store) [nerf; gauss; survey; nerf],
         cache') ∧
    extra nerf = Some "Citation Key: ABC123" ∧
    lookupKey example_store (key nerf) = Some "XYZ999" ∧
    lookup_sources example_store nerf = Some "ABC123" ∧
    cache' !! key nerf = Some (Some "ABC123").
Proof.
  destruct (extra_key_first_and_memoized example_store
              [nerf; gauss; survey; nerf] example_keyed)
    as (cache' & Hall & Hfirst & _).
  exists cache'. split; [exact Hall|].
  split; [reflexivity|]. split; [reflexivity|].
  apply (Hfirst nerf "ABC123"); [constructor|reflexivity].
Defined.

(** ** The ranking order *)

Lemma leb_spec (s t : string) :
  String.leb s t = true ↔ s = t ∨ OrderedTypeEx.String_as_OT.lt s t.
Proof.
  unfold String.leb.
  pose proof (OrderedTypeEx.String_as_OT.cmp_eq s t) as Heq.
  pose proof (OrderedTypeEx.String_as_OT.cmp_lt s t) as Hlt.
  unfold OrderedTypeEx.String_as_OT.cmp in Heq, Hlt.
  destruct (String.compare s t).
  - split; [intros _; left; apply Heq; reflexivity|reflexivity].
  - split; [intros _; right; apply Hlt; reflexivity|reflexivity].
  - split; [discriminate|].
    intros [H|H]; [apply Heq in H|apply Hlt in H]; discriminate H.
Qed.

Lemma leb_trans (s t u : string) :
  String.leb s t = true → String.leb t u = true → String.leb s u = true.
Proof.
  rewrite !leb_spec. intros [->|Hst] [->|Htu]; auto.
  right. exact (OrderedTypeEx.String_as_OT.lt_trans _ _ _ Hst Htu).
Qed.

(** [ranked] spelled out: a higher score first; at equal scores the later
    [dateAdded] first; at equal dates the smaller key first. *)
Lemma ranked_alt (a b : ScoredResult) :
  ranked a b ↔
  (score b < score a)%Q ∨
  ((score a == score b)%Q ∧
   (dateAdded (item b) < dateAdded (item a) ∨
    (dateAdded (item a) = dateAdded (item b) ∧
     String.leb (key (item a)) (key (item b)) = true))).
Proof.
  unfold ranked, before.
  destruct (Qcompare_spec (score a) (score b)) as [Hq|Hq|Hq];
    [destruct (Z.compare_spec (dateAdded (item a)) (dateAdded (item b)))
       as [Hd|Hd|Hd]| |].
  - split; [auto|]. intros [H|[_ [H|[_ H]]]]; [lra|lia|exact H].
  - split; [discriminate|]. intros [H|[_ [H|[H _]]]]; [lra|lia|lia].
  - split; [auto|reflexivity].
  - split; [discriminate|]. intros [H|[H _]]; lra.
  - split; [auto|reflexivity].
Qed.

Global Instance ranked_total : Total ranked.
Proof.
  intros a b. rewrite !ranked_alt.
  destruct (Qcompare_spec (score a) (score b)) as [Hq|Hq|Hq]; [|auto..].
  destruct (Z.compare_spec (dateAdded (item a)) (dateAdded (item b)))
    as [Hd|Hd|Hd].
  - destruct (String.leb_total (key (item a)) (key (item b))) as [Hk|Hk].
    + left. right. auto.
    + right. right. split; [symmetry; exact Hq|]. right. auto.
  - right. right. split; [symmetry; exact Hq|]. left. exact Hd.
  - left. right. split; [exact Hq|]. left. exact Hd.
Qed.

Global Instance ranked_trans : Transitive ranked.
Proof.
  intros a b c. rewrite !ranked_alt.
  intros [Hab|[Hab Hab']] [Hbc|[Hbc Hbc']].
  - left. lra.
  - left. lra.
  - left. lra.
  - right. split; [lra|].
    destruct Hab' as [Hd|[Hd Hk]], Hbc' as [Hd'|[Hd' Hk']].
    + left. lia.
    + left. lia.
    + left. lia.
    + right. split; [lia|]. exact (leb_trans _ _ _ Hk Hk').
Qed.

(** Two results that rank before each other have one key. *)
Lemma ranked_antisym (a b : ScoredResult) :
  ranked a b → ranked b a → key (item a) = key (item b).
Proof.
  rewrite !ranked_alt.
  intros [Hab|[Hab Hab']] [Hba|[Hba Hba']]; try lra.
  destruct Hab' as [Hd|[Hd Hk]], Hba' as [Hd'|[Hd' Hk']]; try lia.
  apply String.leb_antisym; assumption.
Qed.


(** ** One search, whatever the order of the candidates *)

Lemma alive_of_Permutation (cfg : Config) (store : Store)
    (terms : list string) (its1 its2 : list LibraryItem) :
  its1 ≡ₚ its2 → alive_of cfg store terms its1 ≡ₚ alive_of cfg store terms its2.
Proof.
  intros Hperm. unfold alive_of, survivors.
  apply filter_Permutation, Permutation_map, Hperm.
Qed.

Lemma alive_of_item (cfg : Config) (store : Store) (terms : list string)
    (its : list LibraryItem) (r : ScoredResult) :
  r ∈ alive_of cfg store terms its →
  item r ∈ its ∧ r = score_item cfg terms (item r) (lookup_sources store (item r)).
Proof.
  unfold alive_of, survivors. intros Hr.
  apply list_elem_of_filter in Hr as [_ Hr].
  apply list_elem_of_fmap in Hr as (it & -> & Hit). simpl. auto.
Qed.

(** Ranking does not depend on the order in which the survivors come. *)
Lemma rank_alive_of_Permutation (cfg : Config) (store : Store)
    (terms : list string) (its1 its2 : list LibraryItem) :
  keyed its1 → its1 ≡ₚ its2 →
  rank (alive_of cfg store terms its1) = rank (alive_of cfg store terms its2).
Proof.
  intros Hkeyed Hperm. unfold rank.
  apply (Sorted_unique_strong ranked).
  - intros a b Ha Hb Hab Hba.
    rewrite merge_sort_Permutation in Ha, Hb.
    rewrite <- (alive_of_Permutation cfg store terms its1 its2 Hperm) in Hb.
    apply alive_of_item in Ha as [Ha Hra], Hb as [Hb Hrb].
    pose proof (ranked_antisym a b Hab Hba) as Hkey.
    rewrite Hra, Hrb, (Hkeyed _ _ Ha Hb Hkey). reflexivity.
  - apply Sorted_merge_sort, _.
  - apply Sorted_merge_sort, _.
  - rewrite !merge_sort_Permutation.
    apply alive_of_Permutation, Hperm.
Qed.

(** A search from a sound cache is the search on the sources. *)
Lemma search_from_sound (cfg : Config) (store : Store)
    (universe : list LibraryItem) (cache : gmap string (option string))
    (text : string) (limit : option Z) (terms : list string)
    (its : list LibraryItem) :
  keyed universe → (∀ it, it ∈ its → it ∈ universe) →
  cache_sound store universe cache →
  tokenize text = Some terms →
  ∃ cache',
    search cfg store cache text limit its =
    Some ({| query := text;
             total := length (alive_of cfg store terms its);
             items := take (clamp_limit limit)
                        (rank (alive_of cfg store terms its)) |}, cache') ∧
    cache_sound store universe cache'.
Proof.
  intros Hkeyed Hsub Hsound Htok.
  destruct (resolve_all_sound store universe Hkeyed its cache Hsub Hsound)
    as (cache' & Hall & Hsound' & _).
  exists cache'. split; [|exact Hsound'].
  unfold search. rewrite Htok, Hall.
  unfold alive_of. rewrite zip_with_fmap_r, zip_with_diag. reflexivity.
Qed.

(** C7.  The ranking order is total and transitive, and two results that
    it cannot tell apart have the same key.  So, for candidates whose keys
    identify them, a search started with an empty cache gives the same
    output (query, total, and the items in the same order with the same
    scores) whatever the order in which the candidates come, and gives it
    again when it is run a second time with the cache the first run left;
    the items come out sorted by the ranking order. *)
Theorem search_is_deterministic (cfg : Config) (store : Store)
    (text : string) (limit : option Z) (its1 its2 : list LibraryItem) :
  keyed its1 → its1 ≡ₚ its2 →
  (∀ a b, ranked a b ∨ ranked b a) ∧
  (∀ a b c, ranked a b → ranked b c → ranked a c) ∧
  (∀ a b, ranked a b → ranked b a → key (item a) = key (item b)) ∧
  match search cfg store ∅ text limit its1 with
  | None => tokenize text = None ∧ search cfg store ∅ text limit its2 = None
  | Some (out, cache1) =>
      (∃ cache2, search cfg store ∅ text limit its2 = Some (out, cache2)) ∧
      (∃ cache3, search cfg store cache1 text limit its1 = Some (out, cache3)) ∧
      StronglySorted ranked (items out)
  end.
Proof.
  intros Hkeyed Hperm.
  split; [exact ranked_total|]. split; [exact ranked_trans|].
  split; [exact ranked_antisym|].
  destruct (tokenize text) as [terms|] eqn:Htok.
  - destruct (search_from_sound cfg store its1 ∅ text limit terms its1)
      as (cache1 & Hrun1 & Hsound1);
      [exact Hkeyed|auto|apply cache_sound_empty|exact Htok|].
    destruct (search_from_sound cfg store its1 ∅ text limit terms its2)
      as (cache2 & Hrun2 & _);
      [exact Hkeyed|intros it Hit; rewrite Hperm; exact Hit
      |apply cache_sound_empty|exact Htok|].
    destruct (search_from_sound cfg store its1 cache1 text limit terms its1)
      as (cache3 & Hrun3 & _);
      [exact Hkeyed|auto|exact Hsound1|exact Htok|].
    rewrite Hrun1. split; [|split].
    + exists cache2. rewrite Hrun2.
      rewrite <- (rank_alive_of_Permutation cfg store terms its1 its2
                    Hkeyed Hperm).
      rewrite <- (alive_of_Permutation cfg store terms its1 its2 Hperm).
      reflexivity.
    + exists cache3. exact Hrun3.
    + simpl.
      apply (StronglySorted_app_1_l ranked _
               (drop (clamp_limit limit)
                  (rank (alive_of cfg store terms its1)))).
      rewrite take_drop. apply StronglySorted_merge_sort; apply _.
  - unfold search. rewrite Htok. auto.
Qed.

Lemma search_is_deterministic_witness :
  match search example_config example_store ∅ "neural radiance" (Some 2)
          [nerf; gauss; survey; nerf] with
  | None => False
  | Some (out, cache1) =>
      (∃ cache2,
         search example_config example_store ∅ "neural radiance" (Some 2)
           [gauss; nerf; survey; nerf] = Some (out, cache2)) ∧
      (∃ cache3,
         search example_config example_store cache1 "neural radiance" (Some 2)
           [nerf; gauss; survey; nerf] = Some (out, cache3)) ∧
      total out = 4%nat ∧ map (λ r, key (item r)) (items out)
                          = ["NERF0001"; "NERF0001"]
  end.
Proof.
  assert (Hperm : [nerf; gauss; survey; nerf] ≡ₚ [gauss; nerf; survey; nerf])
    by apply perm_swap.
  pose proof (search_is_deterministic example_config example_store
                "neural radiance" (Some 2) _ _ example_keyed Hperm)
    as (_ & _ & _ & Hrun).
  destruct (search example_config example_store ∅ "neural radiance" (Some 2)
              [nerf; gauss; survey; nerf]) as [[out cache1]|] eqn:Hs.
  - destruct Hrun as (H2 & H3 & _). split; [exact H2|]. split; [exact H3|].
    vm_compute in Hs. injection Hs as <- _. split; reflexivity.
  - vm_compute in Hs. discriminate Hs.
Defined.

End EngineFacts.
